(** * frugally-deep: the dense 3D tensor [matrix3d]

    A shallow embedding of [include/frugally_deep/matrix3d.h] and the
    properties of its operations: row-major indexing, [get]/[set],
    [transform_matrix3d], [reshape_matrix3d], the min/max scan and the
    elementwise arithmetic.

    Conventions.  A [std::size_t] is an [N] and the arithmetic of [idx]
    wraps modulo [2^64].  A [float_t] is an IEEE 754 number of the Standard
    Library's [spec_float], which has one NaN.  A function that can hit a
    failing [assert] or index outside its buffer returns an [option].  The
    nested [for] loops are monadic folds over [0 .. n-1]. *)

From Stdlib Require Import ZArith NArith Lia.
From Stdlib Require Import Floats.SpecFloat.
From Stdlib Require Import Ascii String.
From stdpp Require Import base tactics option list numbers.

Local Open Scope N_scope.

(** ** [std::size_t]

    Unsigned 64-bit arithmetic: a value is an [N], every sum and product is
    reduced modulo [2^64]. *)

Definition size_t : Type := N.

Definition size_t_modulus : N := 2 ^ 64.

Definition size_wrap (n : N) : size_t := n mod size_t_modulus.

Definition size_add (a b : size_t) : size_t := size_wrap (a + b).

Definition size_mul (a b : size_t) : size_t := size_wrap (a * b).

(** ** [float_t] and [float_vec]

    The scalars are IEEE 754 binary floating-point numbers, in the Standard
    Library's specification [spec_float]; the operations that round take the
    format ([prec], [emax]) as a parameter.  A [float_vec] is a
    [std::vector<float_t>]. *)

Abbreviation float_t := spec_float (only parsing).

Abbreviation float_vec := (list float_t) (only parsing).

(** The literal [0.0f]. *)
Definition float_zero : float_t := S754_zero false.

(** A [std::vector] reports its length as a [std::size_t]. *)
Definition vec_fits (v : float_vec) : Prop :=
  N.of_nat (length v) < size_t_modulus.

#[global] Instance spec_float_eq_dec : EqDecision spec_float.
Proof. solve_decision. Defined.

(** ** [size3d]

    Modelled from the spec: [size3d.h] is not part of the sources at hand.
    The spec gives a shape as an immutable triple (depth, height, width) of
    non-negative extents that exposes [volume() = depth × height × width];
    [matrix3d.h] reads the fields [depth_], [height_], [width_] and compares
    two shapes with [==].  [volume] is that product, as a number. *)
Module size3d.

Record t : Type := mk { depth_ : size_t; height_ : size_t; width_ : size_t }.

Definition volume (s : t) : N := depth_ s * height_ s * width_ s.

#[global] Instance size3d_eq_dec : EqDecision t.
Proof. solve_decision. Defined.

End size3d.

(** ** [matrix3d_pos]

    Modelled from the spec: [matrix3d_pos.h] is not part of the sources at
    hand.  The spec gives a position as an immutable triple (z, y, x) with no
    validation of its own; [matrix3d.h] builds it from three [std::size_t]
    and reads the fields [z_], [y_], [x_]. *)
Module matrix3d_pos.

Record t : Type := mk { z_ : size_t; y_ : size_t; x_ : size_t }.

#[global] Instance matrix3d_pos_eq_dec : EqDecision t.
Proof. solve_decision. Defined.

End matrix3d_pos.

(** A position lies within a shape when each coordinate is below the
    matching extent. *)
Definition in_bounds (s : size3d.t) (p : matrix3d_pos.t) : Prop :=
  matrix3d_pos.z_ p < size3d.depth_ s ∧
  matrix3d_pos.y_ p < size3d.height_ s ∧
  matrix3d_pos.x_ p < size3d.width_ s.

(** The row-major offset of the spec, as a plain number. *)
Definition flat_index (s : size3d.t) (p : matrix3d_pos.t) : N :=
  matrix3d_pos.z_ p * size3d.height_ s * size3d.width_ s +
  matrix3d_pos.y_ p * size3d.width_ s +
  matrix3d_pos.x_ p.

(** ** [class matrix3d]

    An [assert] that fails and an access outside the buffer both end the
    computation: they are the [None] of an [option]. *)
Module matrix3d.

Record t : Type := mk { size_ : size3d.t; values_ : float_vec }.

#[global] Instance matrix3d_eq_dec : EqDecision t.
Proof. solve_decision. Defined.

(** [matrix3d(const size3d& shape, const float_vec& values)] *)
Definition matrix3d (shape : size3d.t) (values : float_vec) : option t :=
  if decide (size3d.volume shape = N.of_nat (length values))
  then Some (mk shape values)
  else None.

(** [explicit matrix3d(const size3d& shape)] *)
Definition matrix3d_zero (shape : size3d.t) : t :=
  mk shape (replicate (N.to_nat (size3d.volume shape)) float_zero).

Definition size (m : t) : size3d.t := size_ m.

Definition as_vector (m : t) : float_vec := values_ m.

Definition idx (m : t) (pos : matrix3d_pos.t) : size_t :=
  size_add
    (size_add
       (size_mul (size_mul (matrix3d_pos.z_ pos) (size3d.height_ (size m)))
                 (size3d.width_ (size m)))
       (size_mul (matrix3d_pos.y_ pos) (size3d.width_ (size m))))
    (matrix3d_pos.x_ pos).

(** [values_[idx(pos)]], read. *)
Definition get (m : t) (pos : matrix3d_pos.t) : option float_t :=
  values_ m !! N.to_nat (idx m pos).

Definition get3 (m : t) (z y x : size_t) : option float_t :=
  get m (matrix3d_pos.mk z y x).

(** [values_[idx(pos)] = value]. *)
Definition set (m : t) (pos : matrix3d_pos.t) (value : float_t) : option t :=
  if decide (N.to_nat (idx m pos) < length (values_ m))%nat
  then Some (mk (size_ m) (<[N.to_nat (idx m pos) := value]> (values_ m)))
  else None.

Definition set3 (m : t) (z y x : size_t) (value : float_t) : option t :=
  set m (matrix3d_pos.mk z y x) value.

(** The class invariant, checked by the constructor's [assert]. *)
Definition invariant (m : t) : Prop :=
  size3d.volume (size m) = N.of_nat (length (as_vector m)).

(** A tensor: the invariant holds, of a buffer whose length a
    [std::vector] can have. *)
Definition tensor (m : t) : Prop := invariant m ∧ vec_fits (as_vector m).

End matrix3d.

(** ** Counted loops

    [for (std::size_t i = 0; i < n; ++i) body], threading the state that
    the body updates; the body may end the computation. *)

Fixpoint foldM {A S : Type} (body : A → S → option S) (l : list A) (s : S)
  : option S :=
  match l with
  | [] => Some s
  | a :: l' => s' ← body a s; foldM body l' s'
  end.

Definition range (n : size_t) : list size_t := N.of_nat <$> seq 0 (N.to_nat n).

Definition for_ {S : Type} (n : size_t) (body : size_t → S → option S)
  : S → option S :=
  foldM body (range n).

(** The positions of a shape in the order of the three nested loops: z
    outer, y middle, x inner. *)
Definition positions (s : size3d.t) : list matrix3d_pos.t :=
  z ← range (size3d.depth_ s);
  y ← range (size3d.height_ s);
  x ← range (size3d.width_ s);
  [matrix3d_pos.mk z y x].

(** ** The free functions of [matrix3d.h] *)

(** The running state of [matrix3d_min_max_pos]. *)
Record min_max_state : Type := mk_min_max_state {
  result_min : matrix3d_pos.t;
  result_max : matrix3d_pos.t;
  value_max : float_t;
  value_min : float_t
}.

(** The body of the innermost loop of [transform_matrix3d]. *)
Definition transform_step (f : float_t → float_t) (in_vol : matrix3d.t)
    (p : matrix3d_pos.t) (out_vol : matrix3d.t) : option matrix3d.t :=
  v ← matrix3d.get3 in_vol (matrix3d_pos.z_ p) (matrix3d_pos.y_ p)
                     (matrix3d_pos.x_ p);
  matrix3d.set3 out_vol (matrix3d_pos.z_ p) (matrix3d_pos.y_ p)
                (matrix3d_pos.x_ p) (f v).

Section free_functions.

(** The format of [float_t]: [typedefs.h] is not part of the sources at
    hand, so the precision and the exponent bound stay parameters
    (24 and 128 for [float], 53 and 1024 for [double]). *)
Context (prec emax : Z).

(** [std::numeric_limits<float_t>::min()]: the least positive normal
    number. *)
Definition numeric_limits_min : float_t :=
  S754_finite false (Z.to_pos (2 ^ (prec - 1))) (emin prec emax).

(** [std::numeric_limits<float_t>::max()]: the greatest finite number. *)
Definition numeric_limits_max : float_t := SFmax_float prec emax.

(** The conversions of the integer literals [1] and [-1] to [float_t]. *)
Definition float_one : float_t := SFone prec emax.

Definition float_minus_one : float_t := SFopp float_one.

(** [a > b] and [a < b] on [float_t]. *)
Definition float_gt (a b : float_t) : bool := SFltb b a.

Definition float_lt (a b : float_t) : bool := SFltb a b.

(** [std::plus<float_t>()]. *)
Definition float_plus (a b : float_t) : float_t := SFadd prec emax a b.

(** [fplus::abs<float_t>]: [x] negated when [x < 0]. *)
Definition fplus_abs (x : float_t) : float_t :=
  if float_lt x float_zero then SFopp x else x.

Definition transform_matrix3d (f : float_t → float_t) (in_vol : matrix3d.t)
  : option matrix3d.t :=
  let out_vol :=
    matrix3d.matrix3d_zero
      (size3d.mk (size3d.depth_ (matrix3d.size in_vol))
                 (size3d.height_ (matrix3d.size in_vol))
                 (size3d.width_ (matrix3d.size in_vol))) in
  for_ (size3d.depth_ (matrix3d.size in_vol)) (λ z,
    for_ (size3d.height_ (matrix3d.size in_vol)) (λ y,
      for_ (size3d.width_ (matrix3d.size in_vol)) (λ x out_vol,
        v ← matrix3d.get3 in_vol z y x;
        matrix3d.set3 out_vol z y x (f v))))
    out_vol.

Definition reshape_matrix3d (in_vol : matrix3d.t) (out_size : size3d.t)
  : option matrix3d.t :=
  matrix3d.matrix3d out_size (matrix3d.as_vector in_vol).

(** The two conditional updates in the innermost loop of
    [matrix3d_min_max_pos], at position [pos] holding [current_value]. *)
Definition min_max_update (pos : matrix3d_pos.t) (current_value : float_t)
    (st : min_max_state) : min_max_state :=
  let st1 :=
    if float_gt current_value (value_max st)
    then mk_min_max_state (result_min st) pos current_value (value_min st)
    else st in
  if float_lt current_value (value_min st1)
  then mk_min_max_state pos (result_max st1) (value_max st1) current_value
  else st1.

(** The body of the innermost loop of [matrix3d_min_max_pos]. *)
Definition min_max_step (vol : matrix3d.t) (z y x : size_t)
    (st : min_max_state) : option min_max_state :=
  current_value ← matrix3d.get3 vol z y x;
  Some (min_max_update (matrix3d_pos.mk z y x) current_value st).

Definition min_max_init : min_max_state :=
  mk_min_max_state (matrix3d_pos.mk 0 0 0) (matrix3d_pos.mk 0 0 0)
                   numeric_limits_min numeric_limits_max.

(** The three loops of [matrix3d_min_max_pos], from the initial state. *)
Definition min_max_loop (vol : matrix3d.t) : option min_max_state :=
  for_ (size3d.depth_ (matrix3d.size vol)) (λ z,
    for_ (size3d.height_ (matrix3d.size vol)) (λ y,
      for_ (size3d.width_ (matrix3d.size vol)) (λ x,
        min_max_step vol z y x)))
    min_max_init.

Definition matrix3d_min_max_pos (vol : matrix3d.t)
  : option (matrix3d_pos.t * matrix3d_pos.t) :=
  st ← min_max_loop vol;
  Some (result_min st, result_max st).

Definition matrix3d_max_pos (vol : matrix3d.t) : option matrix3d_pos.t :=
  snd <$> matrix3d_min_max_pos vol.

Definition matrix3d_min_pos (vol : matrix3d.t) : option matrix3d_pos.t :=
  snd <$> matrix3d_min_max_pos vol.

Definition matrix3d_min_max_value (vol : matrix3d.t)
  : option (float_t * float_t) :=
  min_max_positions ← matrix3d_min_max_pos vol;
  lo ← matrix3d.get vol (fst min_max_positions);
  hi ← matrix3d.get vol (snd min_max_positions);
  Some (lo, hi).

Definition matrix3d_max_value (m : matrix3d.t) : option float_t :=
  matrix3d_max_pos m ≫= matrix3d.get m.

Definition matrix3d_min_value (m : matrix3d.t) : option float_t :=
  matrix3d_min_pos m ≫= matrix3d.get m.

Definition add_matrix3ds (m1 m2 : matrix3d.t) : option matrix3d.t :=
  if decide (matrix3d.size m1 = matrix3d.size m2)
  then matrix3d.matrix3d (matrix3d.size m1)
         (zip_with float_plus (matrix3d.as_vector m1) (matrix3d.as_vector m2))
  else None.

Definition multiply_matrix3d (m : matrix3d.t) (factor : float_t)
  : option matrix3d.t :=
  transform_matrix3d (λ x, SFmul prec emax factor x) m.

Definition divide_matrix3d (m : matrix3d.t) (divisor : float_t)
  : option matrix3d.t :=
  multiply_matrix3d m (SFdiv prec emax float_one divisor).

Definition sub_matrix3d (m1 m2 : matrix3d.t) : option matrix3d.t :=
  multiply_matrix3d m2 float_minus_one ≫= add_matrix3ds m1.

Definition abs_matrix3d_values (m : matrix3d.t) : option matrix3d.t :=
  transform_matrix3d fplus_abs m.

Definition abs_diff_matrix3ds (m1 m2 : matrix3d.t) : option matrix3d.t :=
  sub_matrix3d m1 m2 ≫= abs_matrix3d_values.

End free_functions.

(** What it is for an operation to produce a tensor that satisfies the
    class invariant. *)
Definition yields_invariant (r : option matrix3d.t) : Prop :=
  ∃ t, r = Some t ∧ matrix3d.invariant t.

(** ** Tensors for the examples *)

(** The conversion of an integer to [float_t], for writing tensors down. *)
Definition float_of_Z (prec emax : Z) (n : Z) : float_t :=
  binary_normalize prec emax n 0 false.

(** The tensor of shape (1,2,2) over the flat data 1, 2, 3, 4. *)
Definition example_1234 (prec emax : Z) : matrix3d.t :=
  matrix3d.mk (size3d.mk 1 2 2) (float_of_Z prec emax <$> [1; 2; 3; 4]%Z).

(** The tensor of shape (1,2,2) over the flat data 4, 3, 2, 1. *)
Definition example_4321 (prec emax : Z) : matrix3d.t :=
  matrix3d.mk (size3d.mk 1 2 2) (float_of_Z prec emax <$> [4; 3; 2; 1]%Z).

(** The tensor of shape (1,1,2) over the flat data -2, -1. *)
Definition example_negative (prec emax : Z) : matrix3d.t :=
  matrix3d.mk (size3d.mk 1 1 2) (float_of_Z prec emax <$> [-2; -1]%Z).

(** The tensor of shape (2,1,1) over the flat data 5, 6. *)
Definition example_56 (prec emax : Z) : matrix3d.t :=
  matrix3d.mk (size3d.mk 2 1 1) (float_of_Z prec emax <$> [5; 6]%Z).

(** The tensor of shape (0,3,3), which has no element. *)
Definition example_empty : matrix3d.t := matrix3d.mk (size3d.mk 0 3 3) [].

(** ** Predicates for the further properties *)

(** What the running maximum of the scan is after the elements [l], from
    the state [st0]: either no element was above the first [value_max], or
    the position and the value are those of the first greatest element. *)
Definition max_scanned (l : list (matrix3d_pos.t * float_t))
    (st0 st : min_max_state) : Prop :=
  ((∀ j q w, l !! j = Some (q, w) → float_gt w (value_max st0) = false) ∧
   result_max st = result_max st0 ∧ value_max st = value_max st0)
  ∨
  (∃ i p v, l !! i = Some (p, v) ∧ result_max st = p ∧ value_max st = v ∧
     float_gt v (value_max st0) = true ∧
     (∀ j q w, l !! j = Some (q, w) → float_gt w v = false) ∧
     (∀ j q w, l !! j = Some (q, w) → (j < i)%nat → SFleb v w = false)).

(** The same for the running minimum. *)
Definition min_scanned (l : list (matrix3d_pos.t * float_t))
    (st0 st : min_max_state) : Prop :=
  ((∀ j q w, l !! j = Some (q, w) → float_lt w (value_min st0) = false) ∧
   result_min st = result_min st0 ∧ value_min st = value_min st0)
  ∨
  (∃ i p v, l !! i = Some (p, v) ∧ result_min st = p ∧ value_min st = v ∧
     float_lt v (value_min st0) = true ∧
     (∀ j q w, l !! j = Some (q, w) → float_lt w v = false) ∧
     (∀ j q w, l !! j = Some (q, w) → (j < i)%nat → SFleb w v = false)).

(** The element at [p] is a greatest one, and the first such in row-major
    order: no element is greater, and no element at a smaller flat offset
    is greater or equal. *)
Definition first_greatest_at (vol : matrix3d.t) (p : matrix3d_pos.t) : Prop :=
  in_bounds (matrix3d.size vol) p ∧
  ∃ v, matrix3d.get vol p = Some v ∧
    (∀ q w, in_bounds (matrix3d.size vol) q → matrix3d.get vol q = Some w →
            float_gt w v = false) ∧
    (∀ q w, in_bounds (matrix3d.size vol) q → matrix3d.get vol q = Some w →
            flat_index (matrix3d.size vol) q < flat_index (matrix3d.size vol) p →
            SFleb v w = false).

(** The element at [p] is a least one, and the first such in row-major
    order. *)
Definition first_least_at (vol : matrix3d.t) (p : matrix3d_pos.t) : Prop :=
  in_bounds (matrix3d.size vol) p ∧
  ∃ v, matrix3d.get vol p = Some v ∧
    (∀ q w, in_bounds (matrix3d.size vol) q → matrix3d.get vol q = Some w →
            float_lt w v = false) ∧
    (∀ q w, in_bounds (matrix3d.size vol) q → matrix3d.get vol q = Some w →
            flat_index (matrix3d.size vol) q < flat_index (matrix3d.size vol) p →
            SFleb w v = false).

(** [float_t] is [float] or [double]. *)
Definition float_or_double (prec emax : Z) : Prop :=
  (prec = 24%Z ∧ emax = 128%Z) ∨ (prec = 53%Z ∧ emax = 1024%Z).

(** A zero or a finite number of the format. *)
Definition is_finite (prec emax : Z) (x : float_t) : bool :=
  match x with
  | S754_zero _ => true
  | S754_finite _ m e => bounded prec emax m e
  | _ => false
  end.

(** ** [show_matrix3d] *)

(** The line feed that ends a row and a depth slice. *)
Definition newline : string := String (ascii_of_nat 10) EmptyString.

Section show_matrix3d.

(** [std::to_string] on a [float_t] is a function of the C++ library: it
    stays a parameter. *)
Context (to_string : float_t → string).

Definition show_matrix3d (m : matrix3d.t) : option string :=
  let str := EmptyString in
  let str := String.append str "[" in
  str ← for_ (size3d.depth_ (matrix3d.size m)) (λ z str,
    let str := String.append str "[" in
    str ← for_ (size3d.height_ (matrix3d.size m)) (λ y str,
      str ← for_ (size3d.width_ (matrix3d.size m)) (λ x str,
        v ← matrix3d.get3 m z y x;
        Some (String.append str (String.append (to_string v) ","))) str;
      Some (String.append str (String.append "]" newline))) str;
    Some (String.append str (String.append "]" newline))) str;
  Some (String.append str "]").

End show_matrix3d.

(** The number of occurrences of a character in a string. *)
Fixpoint count_char (c : ascii) (s : string) : nat :=
  match s with
  | EmptyString => 0
  | String c' s' => (if Ascii.eqb c c' then 1 else 0) + count_char c s'
  end.

(** ** More tensors for the examples *)

(** The tensor of shape (1,1,2) over an infinity and 1. *)
Definition example_infinite (prec emax : Z) : matrix3d.t :=
  matrix3d.mk (size3d.mk 1 1 2) [S754_infinity false; float_of_Z prec emax 1].

(** A rendering of every number as one digit. *)
Definition example_to_string (x : float_t) : string := "0".

(** * Properties *)

(** ** [std::size_t] arithmetic and the row-major layout *)

Lemma size_wrap_small (n : N) : n < size_t_modulus → size_wrap n = n.
Proof. intros Hn. unfold size_wrap. by apply N.mod_small. Qed.

Lemma size_mul_wrap_l (a b : N) : size_mul (size_wrap a) b = size_wrap (a * b).
Proof. unfold size_mul, size_wrap. by rewrite N.Div0.mul_mod_idemp_l. Qed.

Lemma size_add_wrap (a b : N) :
  size_add (size_wrap a) (size_wrap b) = size_wrap (a + b).
Proof. unfold size_add, size_wrap. by rewrite <- N.Div0.add_mod. Qed.

Lemma size_add_wrap_l (a b : N) : size_add (size_wrap a) b = size_wrap (a + b).
Proof. unfold size_add, size_wrap. by rewrite N.Div0.add_mod_idemp_l. Qed.

(** [idx] is the row-major offset, reduced modulo [2^64]. *)
Lemma idx_flat_index (m : matrix3d.t) (p : matrix3d_pos.t) :
  matrix3d.idx m p = size_wrap (flat_index (matrix3d.size m) p).
Proof.
  unfold matrix3d.idx, flat_index.
  unfold size_mul at 2 3. rewrite size_mul_wrap_l, size_add_wrap.
  by rewrite size_add_wrap_l.
Qed.

Lemma mul_add_inj (c a b a' b' : N) :
  b < c → b' < c → a * c + b = a' * c + b' → a = a' ∧ b = b'.
Proof.
  intros Hb Hb' Heq.
  assert (a = a') as ->; [|lia].
  destruct (N.lt_trichotomy a a') as [Hlt|[->|Hlt]]; [|done|]; nia.
Qed.

Lemma flat_index_lt (s : size3d.t) (p : matrix3d_pos.t) :
  in_bounds s p → flat_index s p < size3d.volume s.
Proof.
  destruct s as [d h w], p as [z y x]. unfold in_bounds, flat_index, size3d.volume.
  simpl. intros (Hz & Hy & Hx).
  assert (y * w + x < h * w) by nia.
  assert ((z + 1) * (h * w) ≤ d * (h * w)) by (apply N.mul_le_mono_r; lia).
  lia.
Qed.

Lemma flat_index_inj (s : size3d.t) (p q : matrix3d_pos.t) :
  in_bounds s p → in_bounds s q → flat_index s p = flat_index s q → p = q.
Proof.
  destruct s as [d h w], p as [z y x], q as [z' y' x'].
  unfold in_bounds, flat_index. simpl. intros (Hz & Hy & Hx) (Hz' & Hy' & Hx') Heq.
  destruct (mul_add_inj w (z * h + y) x (z' * h + y') x') as [Hzy ->];
    [done|done|lia|].
  destruct (mul_add_inj h z y z' y') as [-> ->]; done.
Qed.

(** Within the bounds of a tensor, [idx] does not wrap and lands inside the
    buffer. *)
Lemma idx_in_bounds (m : matrix3d.t) (p : matrix3d_pos.t) :
  matrix3d.tensor m → in_bounds (matrix3d.size m) p →
  matrix3d.idx m p = flat_index (matrix3d.size m) p ∧
  (N.to_nat (matrix3d.idx m p) < length (matrix3d.as_vector m))%nat.
Proof.
  intros [Hinv Hfits] Hp. apply flat_index_lt in Hp.
  unfold matrix3d.invariant in Hinv. unfold vec_fits in Hfits.
  rewrite idx_flat_index, size_wrap_small by lia. split; [done|lia].
Qed.

(** Any flat offset below the volume is the offset of a position within
    bounds. *)
Lemma flat_index_surj (s : size3d.t) (i : N) :
  i < size3d.volume s →
  ∃ q, in_bounds s q ∧ flat_index s q = i.
Proof.
  destruct s as [d h w]. unfold size3d.volume, in_bounds, flat_index. simpl.
  intros Hi.
  assert (w ≠ 0) as Hw by (intros ->; lia).
  assert (h ≠ 0) as Hh by (intros ->; lia).
  exists (matrix3d_pos.mk (i / w / h) ((i / w) mod h) (i mod w)). simpl.
  split_and!.
  - rewrite N.Div0.div_div. apply N.Div0.div_lt_upper_bound. lia.
  - by apply N.mod_lt.
  - by apply N.mod_lt.
  - pose proof (N.div_mod i w Hw) as H1.
    pose proof (N.div_mod (i / w) h Hh) as H2. nia.
Qed.

Lemma get_set_eq (m m' : matrix3d.t) (p : matrix3d_pos.t) (v : float_t) :
  matrix3d.set m p v = Some m' → matrix3d.get m' p = Some v.
Proof.
  unfold matrix3d.set, matrix3d.get. intros Hset. case_decide; [|done].
  injection Hset as <-. unfold matrix3d.idx, matrix3d.size.
  cbn [matrix3d.size_ matrix3d.values_]. by apply list_lookup_insert_eq.
Qed.

Lemma set_size (m m' : matrix3d.t) (p : matrix3d_pos.t) (v : float_t) :
  matrix3d.set m p v = Some m' →
  matrix3d.size m' = matrix3d.size m ∧
  length (matrix3d.as_vector m') = length (matrix3d.as_vector m).
Proof.
  unfold matrix3d.set. intros Hset. case_decide; [|done].
  injection Hset as <-. unfold matrix3d.size, matrix3d.as_vector.
  cbn [matrix3d.size_ matrix3d.values_]. by rewrite length_insert.
Qed.

Lemma set_is_Some (m : matrix3d.t) (p : matrix3d_pos.t) (v : float_t) :
  (N.to_nat (matrix3d.idx m p) < length (matrix3d.as_vector m))%nat →
  matrix3d.set m p v =
    Some (matrix3d.mk (matrix3d.size m)
            (<[N.to_nat (matrix3d.idx m p) := v]> (matrix3d.as_vector m))).
Proof. intros Hlt. unfold matrix3d.set. by rewrite decide_True. Qed.

Lemma set_tensor (m m' : matrix3d.t) (p : matrix3d_pos.t) (v : float_t) :
  matrix3d.set m p v = Some m' → matrix3d.tensor m → matrix3d.tensor m'.
Proof.
  intros Hset [Hinv Hfits]. apply set_size in Hset as [Hs Hl].
  unfold matrix3d.tensor, matrix3d.invariant, vec_fits in *.
  rewrite Hs, Hl. done.
Qed.

(** ** Access *)

(** C5. In a tensor of extents (depth, height, width), the scalar at an
    in-bounds position (z, y, x) is the element of the backing sequence at
    flat index z*height*width + y*width + x: [idx] computes that offset,
    the buffer has an element there, [get] reads it and [set] writes it. *)
Theorem row_major_layout (m : matrix3d.t) (z y x : size_t) (v' : float_t) :
  matrix3d.tensor m →
  z < size3d.depth_ (matrix3d.size m) →
  y < size3d.height_ (matrix3d.size m) →
  x < size3d.width_ (matrix3d.size m) →
  let i := z * size3d.height_ (matrix3d.size m) * size3d.width_ (matrix3d.size m)
           + y * size3d.width_ (matrix3d.size m) + x in
  matrix3d.idx m (matrix3d_pos.mk z y x) = i ∧
  (∃ v, matrix3d.as_vector m !! N.to_nat i = Some v ∧
        matrix3d.get3 m z y x = Some v) ∧
  matrix3d.set3 m z y x v' =
    Some (matrix3d.mk (matrix3d.size m) (<[N.to_nat i := v']> (matrix3d.as_vector m))).
Proof.
  intros Hm Hz Hy Hx i.
  destruct (idx_in_bounds m (matrix3d_pos.mk z y x)) as [Hidx Hlt]; [done..|].
  change (flat_index _ _) with i in Hidx. split_and!.
  - done.
  - destruct (lookup_lt_is_Some_2 (matrix3d.as_vector m) (N.to_nat i)) as [v Hv].
    { by rewrite <- Hidx. }
    exists v. split; [done|].
    unfold matrix3d.get3, matrix3d.get. by rewrite Hidx.
  - unfold matrix3d.set3. rewrite set_is_Some by done. by rewrite Hidx.
Qed.

(** C6. After [set] at an in-bounds position P of a tensor, [get] at P
    returns the value written and [get] at every other in-bounds position
    returns what it returned before. *)
Theorem get_after_set (m : matrix3d.t) (p : matrix3d_pos.t) (v : float_t) :
  matrix3d.tensor m → in_bounds (matrix3d.size m) p →
  ∃ m', matrix3d.set m p v = Some m' ∧
        matrix3d.get m' p = Some v ∧
        ∀ q, in_bounds (matrix3d.size m) q → q ≠ p →
             matrix3d.get m' q = matrix3d.get m q.
Proof.
  intros Hm Hp.
  destruct (idx_in_bounds m p) as [Hidx Hlt]; [done..|].
  eexists. split; [by apply set_is_Some|]. split.
  - eapply get_set_eq. by apply set_is_Some.
  - intros q Hq Hne.
    destruct (idx_in_bounds m q) as [Hidxq _]; [done..|].
    unfold matrix3d.get. unfold matrix3d.idx in *. simpl.
    change (matrix3d.size_ m) with (matrix3d.size m).
    apply list_lookup_insert_ne. intros Heq. apply Hne.
    apply (flat_index_inj (matrix3d.size m)); [done..|].
    change (matrix3d.as_vector m) with (matrix3d.values_ m) in *.
    unfold matrix3d.size in *. simpl in *. lia.
Qed.

(** C10. [get] and [set] check no coordinate.  At a position (z, y, x)
    outside the bounds of a tensor whose row-major offset
    z*height*width + y*width + x is still below the buffer length, [idx] is
    that offset, [get] returns and [set] overwrites the element of the flat
    sequence at that offset, and that element is the one of a different
    position, within bounds, that has the same offset. *)
Theorem unchecked_access (m : matrix3d.t) (p : matrix3d_pos.t) (v : float_t) :
  matrix3d.tensor m →
  ¬ in_bounds (matrix3d.size m) p →
  flat_index (matrix3d.size m) p < N.of_nat (length (matrix3d.as_vector m)) →
  let i := matrix3d_pos.z_ p * size3d.height_ (matrix3d.size m)
             * size3d.width_ (matrix3d.size m)
           + matrix3d_pos.y_ p * size3d.width_ (matrix3d.size m)
           + matrix3d_pos.x_ p in
  matrix3d.idx m p = i ∧
  matrix3d.set m p v =
    Some (matrix3d.mk (matrix3d.size m)
            (<[N.to_nat i := v]> (matrix3d.as_vector m))) ∧
  ∃ q a, in_bounds (matrix3d.size m) q ∧ q ≠ p ∧
         flat_index (matrix3d.size m) q = i ∧
         matrix3d.idx m q = i ∧
         matrix3d.as_vector m !! N.to_nat i = Some a ∧
         matrix3d.get m q = Some a ∧
         matrix3d.get m p = Some a ∧
         ∃ m', matrix3d.set m p v = Some m' ∧
               matrix3d.get m' q = Some v ∧
               matrix3d.get m' p = Some v ∧
               ∀ r, in_bounds (matrix3d.size m) r → r ≠ q →
                    matrix3d.get m' r = matrix3d.get m r.
Proof.
  intros Hm Hp Hlt i. pose proof Hm as [Hinv Hfits].
  unfold matrix3d.invariant in Hinv. unfold vec_fits in Hfits.
  change (flat_index (matrix3d.size m) p) with i in Hlt.
  assert (matrix3d.idx m p = i) as Hidx.
  { rewrite idx_flat_index. apply size_wrap_small.
    change (flat_index (matrix3d.size m) p) with i. lia. }
  assert (N.to_nat (matrix3d.idx m p) < length (matrix3d.as_vector m))%nat
    as Hltp by lia.
  assert (matrix3d.set m p v =
          Some (matrix3d.mk (matrix3d.size m)
                  (<[N.to_nat i := v]> (matrix3d.as_vector m)))) as Hset.
  { rewrite set_is_Some by done. by rewrite Hidx. }
  split; [done|]. split; [done|].
  destruct (flat_index_surj (matrix3d.size m) i) as (q & Hq & Hqi); [lia|].
  destruct (idx_in_bounds m q) as [Hidxq _]; [done..|].
  rewrite Hqi in Hidxq.
  destruct (lookup_lt_is_Some_2 (matrix3d.as_vector m) (N.to_nat i))
    as [a Ha]; [lia|].
  exists q, a. split_and!; try done.
  - by intros ->.
  - unfold matrix3d.get. by rewrite Hidxq.
  - unfold matrix3d.get. by rewrite Hidx.
  - eexists. split; [done|].
    unfold matrix3d.get, matrix3d.idx, matrix3d.size in *.
    cbn [matrix3d.size_ matrix3d.values_]. split_and!.
    + rewrite Hidxq. apply list_lookup_insert_eq.
      unfold matrix3d.as_vector in *. lia.
    + rewrite Hidx. apply list_lookup_insert_eq.
      unfold matrix3d.as_vector in *. lia.
    + intros r Hr Hne.
      destruct (idx_in_bounds m r) as [Hidxr _]; [done..|].
      unfold matrix3d.idx, matrix3d.size in Hidxr.
      apply list_lookup_insert_ne. intros Heq. apply Hne.
      apply (flat_index_inj (matrix3d.size_ m)); [done..|].
      unfold matrix3d.size in *. lia.
Qed.

(** ** Reshape *)

(** C4. Reshaping a tensor to a shape of the same volume succeeds and
    leaves the flat sequence as it is, element by element, and reshaping
    the result back to the first shape gives the first tensor again. *)
Theorem reshape_flat_sequence (m : matrix3d.t) (s2 : size3d.t) :
  matrix3d.invariant m →
  size3d.volume s2 = size3d.volume (matrix3d.size m) →
  ∃ m', reshape_matrix3d m s2 = Some m' ∧
        matrix3d.size m' = s2 ∧
        matrix3d.as_vector m' = matrix3d.as_vector m ∧
        (∀ i, matrix3d.as_vector m' !! i = matrix3d.as_vector m !! i) ∧
        reshape_matrix3d m' (matrix3d.size m) = Some m.
Proof.
  intros Hinv Hvol. unfold matrix3d.invariant in Hinv.
  exists (matrix3d.mk s2 (matrix3d.as_vector m)).
  unfold reshape_matrix3d, matrix3d.matrix3d.
  rewrite decide_True by congruence. split_and!; try done.
  cbn [matrix3d.as_vector matrix3d.values_].
  rewrite decide_True by done. by destruct m.
Qed.

(** ** Loops over the positions of a shape *)

Lemma foldM_app {A S : Type} (body : A → S → option S) (l1 l2 : list A) (s : S) :
  foldM body (l1 ++ l2) s = foldM body l1 s ≫= foldM body l2.
Proof.
  revert s. induction l1 as [|a l1 IH]; intros s; [done|].
  simpl. destruct (body a s) as [s'|]; [apply IH|done].
Qed.

Lemma foldM_bind {A B S : Type} (body : B → S → option S) (f : A → list B)
    (l : list A) (s : S) :
  foldM body (l ≫= f) s = foldM (λ a, foldM body (f a)) l s.
Proof.
  revert s. induction l as [|a l IH]; intros s; [done|].
  rewrite bind_cons, foldM_app. simpl.
  destruct (foldM body (f a) s) as [s'|]; [apply IH|done].
Qed.

Lemma foldM_ext {A S : Type} (f g : A → S → option S) (l : list A) (s : S) :
  (∀ a s, f a s = g a s) → foldM f l s = foldM g l s.
Proof.
  intros Hfg. revert s. induction l as [|a l IH]; intros s; [done|].
  simpl. rewrite Hfg. destruct (g a s); [apply IH|done].
Qed.

(** The three nested loops are one pass over [positions]. *)
Lemma nested_loops_positions {S : Type} (sh : size3d.t)
    (body : size_t → size_t → size_t → S → option S) (s : S) :
  for_ (size3d.depth_ sh) (λ z,
    for_ (size3d.height_ sh) (λ y,
      for_ (size3d.width_ sh) (λ x, body z y x))) s =
  foldM (λ p, body (matrix3d_pos.z_ p) (matrix3d_pos.y_ p) (matrix3d_pos.x_ p))
        (positions sh) s.
Proof.
  unfold for_, positions. rewrite foldM_bind. apply foldM_ext. intros z s1.
  rewrite foldM_bind. apply foldM_ext. intros y s2.
  rewrite foldM_bind. apply foldM_ext. intros x s3.
  simpl. by destruct (body z y x s3).
Qed.

Lemma elem_of_range (n i : N) : i ∈ range n ↔ i < n.
Proof.
  unfold range. rewrite list_elem_of_fmap. split.
  - intros (k & -> & Hk). apply elem_of_seq in Hk. lia.
  - intros Hi. exists (N.to_nat i). split; [lia|]. apply elem_of_seq. lia.
Qed.

Lemma elem_of_positions (s : size3d.t) (p : matrix3d_pos.t) :
  p ∈ positions s ↔ in_bounds s p.
Proof.
  unfold positions, in_bounds. destruct p as [z y x]. simpl.
  setoid_rewrite list_elem_of_bind. setoid_rewrite list_elem_of_bind.
  setoid_rewrite list_elem_of_bind. setoid_rewrite list_elem_of_singleton.
  setoid_rewrite elem_of_range. split.
  - intros (z' & (y' & (x' & Heq & Hx) & Hy) & Hz). by simplify_eq.
  - intros (Hz & Hy & Hx). eauto 10.
Qed.

(** A loop whose every body runs and keeps [P] runs to the end and keeps
    [P]. *)
Lemma foldM_invariant {A S : Type} (P : S → Prop) (body : A → S → option S)
    (l : list A) (s : S) :
  P s →
  (∀ a s, a ∈ l → P s → ∃ s', body a s = Some s' ∧ P s') →
  ∃ s', foldM body l s = Some s' ∧ P s'.
Proof.
  revert s. induction l as [|a l IH]; intros s Hs Hbody; [by exists s|].
  destruct (Hbody a s) as (s1 & Hs1 & HP1); [left|done|].
  simpl. rewrite Hs1. simpl. apply IH; [done|].
  intros a' s' Ha'. apply Hbody. by right.
Qed.

(** The same, with a fact [Q a] that the body establishes for the element
    [a] it runs on and that no later body destroys. *)
Lemma foldM_establishes {A S : Type} (P : S → Prop) (Q : A → S → Prop)
    (body : A → S → option S) (l : list A) (s : S) :
  P s →
  (∀ a s, a ∈ l → P s →
     ∃ s', body a s = Some s' ∧ P s' ∧ Q a s' ∧ ∀ b, Q b s → Q b s') →
  ∃ s', foldM body l s = Some s' ∧ P s' ∧
        (∀ b, Q b s → Q b s') ∧ (∀ a, a ∈ l → Q a s').
Proof.
  revert s. induction l as [|a l IH]; intros s Hs Hbody.
  { exists s. split_and!; try done. intros a Ha. by apply elem_of_nil in Ha. }
  destruct (Hbody a s) as (s1 & Hs1 & HP1 & HQ1 & Hkeep1); [left|done|].
  destruct (IH s1) as (s' & Hs' & HP' & Hkeep' & HQ'); [done| |].
  { intros a' s' Ha'. apply Hbody. by right. }
  exists s'. simpl. rewrite Hs1. simpl. split_and!; try done.
  - intros b Hb. by apply Hkeep', Hkeep1.
  - intros b [->|Hb]%elem_of_cons; [by apply Hkeep'|by apply HQ'].
Qed.

(** ** Row-major order *)

Lemma range_add (a b : N) :
  range (a + b) = range a ++ ((λ j, a + j) <$> range b).
Proof.
  unfold range. rewrite N2Nat.inj_add, seq_app, fmap_app. f_equal.
  replace (seq (0 + N.to_nat a) (N.to_nat b))
    with (Nat.add (N.to_nat a) <$> seq 0 (N.to_nat b))
    by (rewrite fmap_add_seq; f_equal; lia).
  rewrite <- !list_fmap_compose. apply list_fmap_ext. intros _ i _. simpl. lia.
Qed.

Lemma range_succ (n : N) : range (N.succ n) = range n ++ [n].
Proof.
  rewrite <- N.add_1_r, range_add. f_equal. simpl. f_equal. lia.
Qed.

Lemma fmap_bind_list {A B C : Type} (f : B → C) (g : A → list B) (l : list A) :
  f <$> (l ≫= g) = l ≫= (λ a, f <$> g a).
Proof.
  induction l as [|a l IH]; [done|]. by rewrite !bind_cons, fmap_app, IH.
Qed.

Lemma bind_ret_fmap {A B : Type} (f : A → B) (l : list A) :
  l ≫= (λ a, [f a]) = f <$> l.
Proof. induction l as [|a l IH]; [done|]. by rewrite bind_cons, IH. Qed.

(** [n] consecutive blocks of [k] offsets each are the first [n * k]
    offsets. *)
Lemma bind_range_blocks (c k n : N) :
  range n ≫= (λ i, (λ j, c + i * k + j) <$> range k) =
  (λ j, c + j) <$> range (n * k).
Proof.
  induction n as [|n IH] using N.peano_ind; [done|].
  rewrite range_succ, bind_app, IH, bind_singleton.
  rewrite N.mul_succ_l, range_add, fmap_app. f_equal.
  rewrite <- list_fmap_compose. apply list_fmap_ext. intros _ j _. simpl. lia.
Qed.

(** The loops visit the positions of a shape in the order of their flat
    offsets 0, 1, ..., volume - 1, each once. *)
Lemma positions_row_major (s : size3d.t) :
  flat_index s <$> positions s = range (size3d.volume s).
Proof.
  destruct s as [d h w]. unfold positions, size3d.volume.
  cbn [size3d.depth_ size3d.height_ size3d.width_].
  rewrite fmap_bind_list.
  transitivity (range d ≫= (λ z, (λ j, 0 + z * (h * w) + j) <$> range (h * w))).
  - apply list_bind_ext; [|done]. intros z.
    rewrite fmap_bind_list.
    transitivity (range h ≫= (λ y, (λ j, z * h * w + y * w + j) <$> range w)).
    + apply list_bind_ext; [|done]. intros y.
      rewrite fmap_bind_list, <- bind_ret_fmap. by apply list_bind_ext.
    + rewrite bind_range_blocks. apply list_fmap_ext. intros _ j _. lia.
  - rewrite bind_range_blocks, <- N.mul_assoc.
    rewrite <- (list_fmap_id (range (d * (h * w)))) at 2.
    apply list_fmap_ext. intros _ j _. simpl. lia.
Qed.

Lemma length_range (n : N) : length (range n) = N.to_nat n.
Proof. unfold range. by rewrite length_fmap, length_seq. Qed.

Lemma lookup_range (n : N) (i : nat) :
  (i < N.to_nat n)%nat → range n !! i = Some (N.of_nat i).
Proof.
  intros Hi. unfold range. rewrite list_lookup_fmap, lookup_seq_lt by done. done.
Qed.

(** The [i]-th position visited is the one whose flat offset is [i]. *)
Lemma lookup_positions (s : size3d.t) (i : nat) (p : matrix3d_pos.t) :
  positions s !! i = Some p → in_bounds s p ∧ flat_index s p = N.of_nat i.
Proof.
  intros Hp. split.
  - apply elem_of_positions. by eapply list_elem_of_lookup_2.
  - pose proof (f_equal (λ l, l !! i) (positions_row_major s)) as Hi.
    simpl in Hi. rewrite list_lookup_fmap, Hp in Hi. simpl in Hi.
    assert (i < N.to_nat (size3d.volume s))%nat as Hlt.
    { rewrite <- length_range, <- (positions_row_major s), length_fmap.
      by eapply lookup_lt_Some. }
    rewrite lookup_range in Hi by done. by injection Hi.
Qed.

Lemma length_positions (s : size3d.t) :
  length (positions s) = N.to_nat (size3d.volume s).
Proof.
  by rewrite <- length_range, <- (positions_row_major s), length_fmap.
Qed.

(** ** Elementwise transform *)

Lemma idx_size (m1 m2 : matrix3d.t) (p : matrix3d_pos.t) :
  matrix3d.size m1 = matrix3d.size m2 → matrix3d.idx m1 p = matrix3d.idx m2 p.
Proof. intros Hs. unfold matrix3d.idx. by rewrite Hs. Qed.

Lemma matrix3d_zero_invariant (shape : size3d.t) :
  matrix3d.invariant (matrix3d.matrix3d_zero shape).
Proof.
  unfold matrix3d.invariant, matrix3d.matrix3d_zero, matrix3d.as_vector,
    matrix3d.size.
  cbn [matrix3d.size_ matrix3d.values_]. rewrite length_replicate. lia.
Qed.

Lemma transform_step_spec (f : float_t → float_t) (in_vol out_vol : matrix3d.t)
    (p : matrix3d_pos.t) :
  matrix3d.tensor in_vol → in_bounds (matrix3d.size in_vol) p →
  matrix3d.size out_vol = matrix3d.size in_vol →
  length (matrix3d.as_vector out_vol) = length (matrix3d.as_vector in_vol) →
  ∃ v, matrix3d.as_vector in_vol !! N.to_nat (matrix3d.idx in_vol p) = Some v ∧
       transform_step f in_vol p out_vol =
         Some (matrix3d.mk (matrix3d.size in_vol)
                 (<[N.to_nat (matrix3d.idx in_vol p) := f v]>
                    (matrix3d.as_vector out_vol))).
Proof.
  intros Hm Hp Hsize Hlen.
  destruct (idx_in_bounds in_vol p) as [_ Hlt]; [done..|].
  destruct (lookup_lt_is_Some_2 _ _ Hlt) as [v Hv].
  exists v. split; [done|].
  unfold transform_step, matrix3d.get3, matrix3d.set3. destruct p as [z y x].
  cbn [matrix3d_pos.z_ matrix3d_pos.y_ matrix3d_pos.x_].
  unfold matrix3d.get. change (matrix3d.values_ in_vol) with (matrix3d.as_vector in_vol).
  rewrite Hv. simpl.
  rewrite set_is_Some; rewrite (idx_size out_vol in_vol) by done.
  - by rewrite Hsize.
  - by rewrite Hlen.
Qed.

(** On a tensor, [transform_matrix3d] runs to the end and yields the tensor
    of the same shape whose flat sequence is the image of the input's. *)
Lemma transform_matrix3d_fmap (f : float_t → float_t) (in_vol : matrix3d.t) :
  matrix3d.tensor in_vol →
  transform_matrix3d f in_vol =
    Some (matrix3d.mk (matrix3d.size in_vol) (f <$> matrix3d.as_vector in_vol)).
Proof.
  intros Hm. pose proof Hm as [Hinv Hfits]. unfold transform_matrix3d.
  rewrite (nested_loops_positions (matrix3d.size in_vol)
             (λ z y x out_vol, v ← matrix3d.get3 in_vol z y x;
                               matrix3d.set3 out_vol z y x (f v))).
  change (foldM _ (positions ?s) ?o) with (foldM (transform_step f in_vol) (positions s) o).
  replace (size3d.mk _ _ _) with (matrix3d.size in_vol) by by destruct (matrix3d.size in_vol).
  destruct (foldM_establishes
    (λ out, matrix3d.size out = matrix3d.size in_vol ∧
            length (matrix3d.as_vector out) = length (matrix3d.as_vector in_vol))
    (λ p out, matrix3d.as_vector out !! N.to_nat (matrix3d.idx in_vol p) =
              f <$> matrix3d.as_vector in_vol !! N.to_nat (matrix3d.idx in_vol p))
    (transform_step f in_vol) (positions (matrix3d.size in_vol))
    (matrix3d.matrix3d_zero (matrix3d.size in_vol)))
    as (out & -> & [Hsize Hlen] & _ & Hall).
  - split; [done|]. pose proof (matrix3d_zero_invariant (matrix3d.size in_vol)) as H0.
    unfold matrix3d.invariant in *.
    change (matrix3d.size (matrix3d.matrix3d_zero ?s)) with s in H0. lia.
  - intros p out Hp%elem_of_positions [Hsize Hlen].
    destruct (transform_step_spec f in_vol out p) as (v & Hv & ->); [done..|].
    destruct (idx_in_bounds in_vol p) as [_ Hlt]; [done..|].
    eexists. split; [done|].
    unfold matrix3d.as_vector, matrix3d.size. cbn [matrix3d.size_ matrix3d.values_].
    unfold matrix3d.as_vector in *.
    split_and!.
    + done.
    + by rewrite length_insert.
    + rewrite list_lookup_insert_eq by lia. by rewrite Hv.
    + intros q Hq.
      destruct (decide (N.to_nat (matrix3d.idx in_vol p) = N.to_nat (matrix3d.idx in_vol q)))
        as [Heq|Hne].
      * rewrite <- Heq. rewrite list_lookup_insert_eq by lia. by rewrite Hv.
      * by rewrite list_lookup_insert_ne.
  - f_equal. destruct out as [osize ovalues].
    unfold matrix3d.size, matrix3d.as_vector in *. cbn [matrix3d.size_ matrix3d.values_] in *.
    f_equal; [done|]. apply list_eq. intros i. rewrite list_lookup_fmap.
    destruct (decide (i < length (matrix3d.values_ in_vol))%nat) as [Hi|Hi].
    + unfold matrix3d.invariant, matrix3d.as_vector, matrix3d.size in Hinv.
      destruct (flat_index_surj (matrix3d.size_ in_vol) (N.of_nat i))
        as (q & Hq & Hqi); [lia|].
      destruct (idx_in_bounds in_vol q) as [Hidx _]; [done..|].
      specialize (Hall q). rewrite Hidx in Hall.
      unfold matrix3d.size in Hall. rewrite Hqi, Nat2N.id in Hall.
      apply Hall. by apply elem_of_positions.
    + rewrite !lookup_ge_None_2; [done|lia..].
Qed.


Lemma fmap_tensor (f : float_t → float_t) (m : matrix3d.t) :
  matrix3d.tensor m →
  matrix3d.tensor (matrix3d.mk (matrix3d.size m) (f <$> matrix3d.as_vector m)).
Proof.
  unfold matrix3d.tensor, matrix3d.invariant, vec_fits, matrix3d.as_vector,
    matrix3d.size.
  cbn [matrix3d.size_ matrix3d.values_]. by rewrite length_fmap.
Qed.

(** ** Arithmetic *)

Lemma SFadd_comm (prec emax : Z) (x y : float_t) :
  SFadd prec emax x y = SFadd prec emax y x.
Proof.
  destruct x as [sx|sx| |sx mx ex], y as [sy|sy| |sy my ey]; simpl; try done;
    try by destruct sx, sy.
  by rewrite Z.min_comm, Z.add_comm.
Qed.

Lemma zip_with_float_plus_comm (prec emax : Z) (l k : float_vec) :
  zip_with (float_plus prec emax) l k = zip_with (float_plus prec emax) k l.
Proof.
  revert k. induction l as [|a l IH]; intros [|b k]; try done.
  simpl. unfold float_plus at 1 3. by rewrite SFadd_comm, IH.
Qed.

Lemma add_matrix3ds_zip_with (prec emax : Z) (m1 m2 : matrix3d.t) :
  matrix3d.invariant m1 → matrix3d.invariant m2 →
  matrix3d.size m1 = matrix3d.size m2 →
  add_matrix3ds prec emax m1 m2 =
    Some (matrix3d.mk (matrix3d.size m1)
            (zip_with (float_plus prec emax) (matrix3d.as_vector m1)
                      (matrix3d.as_vector m2))).
Proof.
  unfold matrix3d.invariant. intros H1 H2 Hsize.
  unfold add_matrix3ds, matrix3d.matrix3d. rewrite decide_True by done.
  rewrite decide_True; [done|]. rewrite length_zip_with.
  rewrite <- Hsize in H2. lia.
Qed.

Lemma add_matrix3ds_invariant (prec emax : Z) (m1 m2 t : matrix3d.t) :
  add_matrix3ds prec emax m1 m2 = Some t → matrix3d.invariant t.
Proof.
  unfold add_matrix3ds, matrix3d.matrix3d. intros Hadd.
  repeat case_decide; by simplify_eq.
Qed.

Lemma multiply_matrix3d_fmap (prec emax : Z) (m : matrix3d.t) (factor : float_t) :
  matrix3d.tensor m →
  multiply_matrix3d prec emax m factor =
    Some (matrix3d.mk (matrix3d.size m)
            (SFmul prec emax factor <$> matrix3d.as_vector m)).
Proof. intros Hm. unfold multiply_matrix3d. by apply transform_matrix3d_fmap. Qed.

(** On tensors of one shape, [sub_matrix3d] runs to the end: each element
    of the result is the first operand's plus [-1] times the second's. *)
Lemma sub_matrix3d_zip_with (prec emax : Z) (m1 m2 : matrix3d.t) :
  matrix3d.tensor m1 → matrix3d.tensor m2 →
  matrix3d.size m1 = matrix3d.size m2 →
  sub_matrix3d prec emax m1 m2 =
    Some (matrix3d.mk (matrix3d.size m1)
            (zip_with (float_plus prec emax) (matrix3d.as_vector m1)
               (SFmul prec emax (float_minus_one prec emax) <$>
                matrix3d.as_vector m2))).
Proof.
  intros H1 H2 Hsize. unfold sub_matrix3d.
  rewrite multiply_matrix3d_fmap by done. simpl.
  apply (fmap_tensor (SFmul prec emax (float_minus_one prec emax))) in H2 as [H2 _].
  destruct H1 as [H1 _]. by rewrite add_matrix3ds_zip_with.
Qed.

Lemma zip_with_tensor (g : float_t → float_t → float_t) (m1 : matrix3d.t)
    (k : float_vec) :
  matrix3d.tensor m1 → length k = length (matrix3d.as_vector m1) →
  matrix3d.tensor
    (matrix3d.mk (matrix3d.size m1) (zip_with g (matrix3d.as_vector m1) k)).
Proof.
  unfold matrix3d.tensor, matrix3d.invariant, vec_fits, matrix3d.as_vector,
    matrix3d.size.
  cbn [matrix3d.size_ matrix3d.values_]. rewrite length_zip_with. lia.
Qed.

(** C8. On tensors A and B of one shape, [add_matrix3ds] gives the same
    tensor in either order of its operands, and [sub_matrix3d A B] gives
    the tensor that [add_matrix3ds] gives on A and the product of B by
    [-1]. *)
Theorem add_commutes_sub_adds_negation (prec emax : Z) (a b : matrix3d.t) :
  matrix3d.tensor a → matrix3d.tensor b →
  matrix3d.size a = matrix3d.size b →
  (∃ c, add_matrix3ds prec emax a b = Some c ∧
        add_matrix3ds prec emax b a = Some c) ∧
  (∃ nb d, multiply_matrix3d prec emax b (float_minus_one prec emax) = Some nb ∧
           add_matrix3ds prec emax a nb = Some d ∧
           sub_matrix3d prec emax a b = Some d).
Proof.
  intros Ha Hb Hsize. split.
  - eexists. split; [apply add_matrix3ds_zip_with; by destruct Ha, Hb|].
    rewrite add_matrix3ds_zip_with by by destruct Ha, Hb.
    by rewrite zip_with_float_plus_comm, Hsize.
  - eexists _, _. split; [by apply multiply_matrix3d_fmap|].
    rewrite sub_matrix3d_zip_with by done. split; [|done].
    apply (fmap_tensor (SFmul prec emax (float_minus_one prec emax))) in Hb as [Hb _].
    destruct Ha as [Ha _]. by rewrite add_matrix3ds_zip_with.
Qed.

(** ** The class invariant *)

Lemma yields_invariant_fmap (f : float_t → float_t) (m : matrix3d.t) :
  matrix3d.tensor m →
  yields_invariant (transform_matrix3d f m).
Proof.
  intros Hm. rewrite transform_matrix3d_fmap by done.
  eexists. split; [done|]. by apply (fmap_tensor f) in Hm as [? _].
Qed.

Lemma equal_shape_equal_length (m1 m2 : matrix3d.t) :
  matrix3d.invariant m1 → matrix3d.invariant m2 →
  matrix3d.size m1 = matrix3d.size m2 →
  length (matrix3d.as_vector m2) = length (matrix3d.as_vector m1).
Proof. unfold matrix3d.invariant. intros H1 H2 Hsize. rewrite Hsize in H1. lia. Qed.

(** [set] keeps the invariant wherever it writes, also through an
    out-of-range position whose offset falls inside the buffer. *)
Lemma set_invariant (m m' : matrix3d.t) (p : matrix3d_pos.t) (v : float_t) :
  matrix3d.set m p v = Some m' → matrix3d.invariant m → matrix3d.invariant m'.
Proof.
  intros [Hs Hl]%set_size Hinv. unfold matrix3d.invariant in *. by rewrite Hs, Hl.
Qed.

(** C7. Every operation that produces a tensor produces one whose flat
    sequence has the length of its shape's volume: the two constructors,
    [set], [transform_matrix3d], [reshape_matrix3d] to a shape of the same
    volume, [add_matrix3ds], [sub_matrix3d], [multiply_matrix3d],
    [divide_matrix3d], [abs_matrix3d_values] and [abs_diff_matrix3ds].  The
    operand [m] is any tensor, empty or not; [set] produces a tensor at every
    position within bounds, and whatever it produces at any position keeps
    the invariant. *)
Theorem length_invariant (prec emax : Z) (shape out_size : size3d.t)
    (values : float_vec) (m m2 : matrix3d.t) (pos : matrix3d_pos.t)
    (value factor divisor : float_t) (f : float_t → float_t) :
  size3d.volume shape = N.of_nat (length values) →
  matrix3d.tensor m → matrix3d.tensor m2 →
  matrix3d.size m = matrix3d.size m2 →
  size3d.volume out_size = size3d.volume (matrix3d.size m) →
  yields_invariant (matrix3d.matrix3d shape values) ∧
  matrix3d.invariant (matrix3d.matrix3d_zero shape) ∧
  (in_bounds (matrix3d.size m) pos →
   yields_invariant (matrix3d.set m pos value)) ∧
  (∀ t, matrix3d.set m pos value = Some t → matrix3d.invariant t) ∧
  yields_invariant (transform_matrix3d f m) ∧
  yields_invariant (reshape_matrix3d m out_size) ∧
  yields_invariant (add_matrix3ds prec emax m m2) ∧
  yields_invariant (sub_matrix3d prec emax m m2) ∧
  yields_invariant (multiply_matrix3d prec emax m factor) ∧
  yields_invariant (divide_matrix3d prec emax m divisor) ∧
  yields_invariant (abs_matrix3d_values m) ∧
  yields_invariant (abs_diff_matrix3ds prec emax m m2).
Proof.
  intros Hvalues Hm Hm2 Hsize Hvol.
  pose proof Hm as [Hinv _]. pose proof Hm2 as [Hinv2 _].
  split_and!.
  - unfold matrix3d.matrix3d. rewrite decide_True by done. by eexists.
  - apply matrix3d_zero_invariant.
  - intros Hpos. destruct (idx_in_bounds m pos) as [_ Hlt]; [done..|].
    eexists. split; [by apply set_is_Some|].
    eapply set_invariant; [by apply set_is_Some|done].
  - intros t Hset. by eapply set_invariant.
  - by apply yields_invariant_fmap.
  - unfold reshape_matrix3d, matrix3d.matrix3d. unfold matrix3d.invariant in Hinv.
    rewrite decide_True by congruence. eexists. split; [done|].
    unfold matrix3d.invariant. cbn. congruence.
  - rewrite add_matrix3ds_zip_with by done. eexists. split; [done|].
    apply zip_with_tensor; [done|]. by apply equal_shape_equal_length.
  - rewrite sub_matrix3d_zip_with by done. eexists. split; [done|].
    apply zip_with_tensor; [done|]. rewrite length_fmap.
    by apply equal_shape_equal_length.
  - by apply yields_invariant_fmap.
  - by apply yields_invariant_fmap.
  - by apply yields_invariant_fmap.
  - unfold abs_diff_matrix3ds. rewrite sub_matrix3d_zip_with by done. simpl.
    apply yields_invariant_fmap, zip_with_tensor; [done|]. rewrite length_fmap.
    by apply equal_shape_equal_length.
Qed.

(** ** The min/max scan *)

Lemma positions_empty (s : size3d.t) : size3d.volume s = 0 → positions s = [].
Proof.
  intros Hvol. apply elem_of_nil_inv. intros p Hp%elem_of_positions.
  apply flat_index_lt in Hp. lia.
Qed.

Lemma min_max_loop_positions (prec emax : Z) (vol : matrix3d.t) :
  min_max_loop prec emax vol =
    foldM (λ p, min_max_step vol (matrix3d_pos.z_ p)
                  (matrix3d_pos.y_ p) (matrix3d_pos.x_ p))
          (positions (matrix3d.size vol)) (min_max_init prec emax).
Proof. unfold min_max_loop. by rewrite nested_loops_positions. Qed.

(** On a tensor the scan reads inside the buffer only, and runs to the
    end. *)
Lemma matrix3d_min_max_pos_total (prec emax : Z) (vol : matrix3d.t) :
  matrix3d.tensor vol → is_Some (matrix3d_min_max_pos prec emax vol).
Proof.
  intros Hvol. unfold matrix3d_min_max_pos. rewrite min_max_loop_positions.
  destruct (foldM_invariant (λ _, True)
    (λ p, min_max_step vol (matrix3d_pos.z_ p)
            (matrix3d_pos.y_ p) (matrix3d_pos.x_ p))
    (positions (matrix3d.size vol)) (min_max_init prec emax))
    as (st & -> & _); [done| |done].
  intros [z y x] st Hp%elem_of_positions _.
  destruct (idx_in_bounds vol (matrix3d_pos.mk z y x)) as [_ Hlt]; [done..|].
  destruct (lookup_lt_is_Some_2 _ _ Hlt) as [v Hv].
  unfold min_max_step, matrix3d.get3, matrix3d.get.
  cbn [matrix3d_pos.z_ matrix3d_pos.y_ matrix3d_pos.x_].
  change (matrix3d.values_ vol) with (matrix3d.as_vector vol). rewrite Hv.
  simpl. eauto.
Qed.

(** A loop that reads one value per element and updates the state with
    it is a left fold over the elements paired with the values read. *)
Lemma foldM_read_foldl {A V St : Type} (rd : A → option V)
    (upd : A → V → St → St) (ps : list A) (vs : list V) (st : St) :
  length ps = length vs →
  (∀ i p, ps !! i = Some p → rd p = vs !! i) →
  foldM (λ p st, v ← rd p; Some (upd p v st)) ps st =
    Some (foldl (λ st pv, upd pv.1 pv.2 st) st (zip ps vs)).
Proof.
  revert vs st. induction ps as [|p ps IH]; intros [|v vs] st Hlen Hrd;
    simplify_eq/=; [done|].
  rewrite (Hrd 0%nat p) by done. simpl. apply IH; [done|].
  intros i q Hq. apply (Hrd (S i) q Hq).
Qed.

(** On a tensor the scan is one left fold of [min_max_update] over the flat
    sequence, each element taken once, in order, with the position of its
    offset. *)
Lemma min_max_loop_foldl (prec emax : Z) (vol : matrix3d.t) :
  matrix3d.tensor vol →
  min_max_loop prec emax vol =
    Some (foldl (λ st pv, min_max_update pv.1 pv.2 st) (min_max_init prec emax)
            (zip (positions (matrix3d.size vol)) (matrix3d.as_vector vol))).
Proof.
  intros Hvol. rewrite min_max_loop_positions.
  rewrite (foldM_ext _ (λ p st, v ← matrix3d.get vol p;
                                Some (min_max_update p v st))).
  - apply foldM_read_foldl.
    + rewrite length_positions. destruct Hvol as [Hinv _].
      unfold matrix3d.invariant in Hinv. lia.
    + intros i p [Hp Hi]%lookup_positions.
      destruct (idx_in_bounds vol p) as [Hidx _]; [done..|].
      unfold matrix3d.get. rewrite Hidx, Hi, Nat2N.id. done.
  - by intros [z y x] st.
Qed.

(** C9. On a tensor whose shape has volume 0 the loops run no body: the
    state stays the initial one and [matrix3d_min_max_pos] returns the pair
    of (0,0,0) and (0,0,0), a position that is not within the shape and at
    which the buffer has no element. *)
Theorem min_max_pos_empty (prec emax : Z) (vol : matrix3d.t) :
  matrix3d.invariant vol →
  size3d.volume (matrix3d.size vol) = 0 →
  min_max_loop prec emax vol = Some (min_max_init prec emax) ∧
  matrix3d_min_max_pos prec emax vol =
    Some (matrix3d_pos.mk 0 0 0, matrix3d_pos.mk 0 0 0) ∧
  ¬ in_bounds (matrix3d.size vol) (matrix3d_pos.mk 0 0 0) ∧
  matrix3d.get vol (matrix3d_pos.mk 0 0 0) = None.
Proof.
  intros Hinv Hvol.
  assert (min_max_loop prec emax vol = Some (min_max_init prec emax)) as Hloop.
  { by rewrite min_max_loop_positions, positions_empty. }
  split_and!.
  - done.
  - unfold matrix3d_min_max_pos. by rewrite Hloop.
  - intros Hp%flat_index_lt. lia.
  - unfold matrix3d.get. apply lookup_ge_None_2.
    unfold matrix3d.invariant in Hinv.
    change (matrix3d.values_ vol) with (matrix3d.as_vector vol). lia.
Qed.

(** C2. [matrix3d_min_pos] returns what [matrix3d_max_pos] returns, the
    second component of the pair of [matrix3d_min_max_pos], and so
    [matrix3d_min_value] returns what [matrix3d_max_value] returns. *)
Theorem min_pos_returns_max_pos (prec emax : Z) (vol : matrix3d.t) :
  matrix3d_min_pos prec emax vol = matrix3d_max_pos prec emax vol ∧
  matrix3d_min_pos prec emax vol = snd <$> matrix3d_min_max_pos prec emax vol ∧
  matrix3d_min_value prec emax vol = matrix3d_max_value prec emax vol.
Proof. done. Qed.

(** C3. The tensor built from shape (1,2,2) and the flat data 1, 2, 3, 4,
    evaluated: [get] reads 1 at (0,0,0) and 4 at (0,1,1), the maximum is 4
    at (0,1,1), the pair of positions is ((0,0,0), (0,1,1)); but
    [matrix3d_min_value] returns 4 and [matrix3d_min_pos] returns (0,1,1),
    where the least element is the 1 at (0,0,0). *)
Theorem example_1234_min_max :
  matrix3d.matrix3d (size3d.mk 1 2 2) (float_of_Z 24 128 <$> [1; 2; 3; 4]%Z) =
    Some (example_1234 24 128) ∧
  matrix3d.get3 (example_1234 24 128) 0 0 0 = Some (float_of_Z 24 128 1) ∧
  matrix3d.get3 (example_1234 24 128) 0 1 1 = Some (float_of_Z 24 128 4) ∧
  matrix3d_max_value 24 128 (example_1234 24 128) = Some (float_of_Z 24 128 4) ∧
  matrix3d_max_pos 24 128 (example_1234 24 128) = Some (matrix3d_pos.mk 0 1 1) ∧
  matrix3d_min_max_pos 24 128 (example_1234 24 128) =
    Some (matrix3d_pos.mk 0 0 0, matrix3d_pos.mk 0 1 1) ∧
  matrix3d_min_value 24 128 (example_1234 24 128) = Some (float_of_Z 24 128 4) ∧
  matrix3d_min_pos 24 128 (example_1234 24 128) = Some (matrix3d_pos.mk 0 1 1) ∧
  float_lt (float_of_Z 24 128 1) (float_of_Z 24 128 4) = true.
Proof. vm_compute. by repeat split. Qed.

(** The same evaluation when [float_t] is [double]. *)
Lemma double_example_1234 :
  matrix3d_max_value 53 1024 (example_1234 53 1024) = Some (float_of_Z 53 1024 4) ∧
  matrix3d_min_max_pos 53 1024 (example_1234 53 1024) =
    Some (matrix3d_pos.mk 0 0 0, matrix3d_pos.mk 0 1 1) ∧
  matrix3d_min_value 53 1024 (example_1234 53 1024) = Some (float_of_Z 53 1024 4) ∧
  matrix3d_min_pos 53 1024 (example_1234 53 1024) = Some (matrix3d_pos.mk 0 1 1).
Proof. vm_compute. by repeat split. Qed.

(** C1. The tensor built from shape (1,1,2) and the flat data -2, -1,
    evaluated: the greater element, -1, is at (0,0,1), but it is not above
    the initial [value_max], the least positive normal number, so the scan
    never updates [result_max] and the pair returned is
    ((0,0,0), (0,0,0)). *)
Theorem min_max_pos_negative_values :
  matrix3d.matrix3d (size3d.mk 1 1 2) (float_of_Z 24 128 <$> [-2; -1]%Z) =
    Some (example_negative 24 128) ∧
  matrix3d.get3 (example_negative 24 128) 0 0 0 = Some (float_of_Z 24 128 (-2)) ∧
  matrix3d.get3 (example_negative 24 128) 0 0 1 = Some (float_of_Z 24 128 (-1)) ∧
  float_gt (float_of_Z 24 128 (-1)) (float_of_Z 24 128 (-2)) = true ∧
  float_gt (float_of_Z 24 128 (-1)) (numeric_limits_min 24 128) = false ∧
  matrix3d_min_max_pos 24 128 (example_negative 24 128) =
    Some (matrix3d_pos.mk 0 0 0, matrix3d_pos.mk 0 0 0) ∧
  matrix3d_max_value 24 128 (example_negative 24 128) =
    Some (float_of_Z 24 128 (-2)).
Proof. vm_compute. by repeat split. Qed.

(** The same evaluation when [float_t] is [double]. *)
Lemma double_negative_values :
  float_gt (float_of_Z 53 1024 (-1)) (numeric_limits_min 53 1024) = false ∧
  matrix3d_min_max_pos 53 1024 (example_negative 53 1024) =
    Some (matrix3d_pos.mk 0 0 0, matrix3d_pos.mk 0 0 0) ∧
  matrix3d_max_value 53 1024 (example_negative 53 1024) =
    Some (float_of_Z 53 1024 (-2)).
Proof. vm_compute. by repeat split. Qed.

(** ** The theorems at concrete tensors *)

Lemma example_1234_tensor : matrix3d.tensor (example_1234 24 128).
Proof. split; reflexivity. Defined.

Lemma example_4321_tensor : matrix3d.tensor (example_4321 24 128).
Proof. split; reflexivity. Defined.

Lemma row_major_layout_witness :
  matrix3d.tensor (example_1234 24 128) ∧
  matrix3d.idx (example_1234 24 128) (matrix3d_pos.mk 0 1 1) = 3 ∧
  (∃ v, matrix3d.as_vector (example_1234 24 128) !! 3%nat = Some v ∧
        matrix3d.get3 (example_1234 24 128) 0 1 1 = Some v) ∧
  matrix3d.set3 (example_1234 24 128) 0 1 1 (float_of_Z 24 128 7) =
    Some (matrix3d.mk (size3d.mk 1 2 2)
            (float_of_Z 24 128 <$> [1; 2; 3; 7]%Z)).
Proof.
  split; [exact example_1234_tensor|].
  apply (row_major_layout (example_1234 24 128) 0 1 1 (float_of_Z 24 128 7)
           example_1234_tensor); reflexivity.
Defined.

Lemma get_after_set_witness :
  in_bounds (size3d.mk 1 2 2) (matrix3d_pos.mk 0 1 0) ∧
  ∃ m', matrix3d.set (example_1234 24 128) (matrix3d_pos.mk 0 1 0)
          (float_of_Z 24 128 7) = Some m' ∧
        matrix3d.get m' (matrix3d_pos.mk 0 1 0) = Some (float_of_Z 24 128 7) ∧
        ∀ q, in_bounds (size3d.mk 1 2 2) q → q ≠ matrix3d_pos.mk 0 1 0 →
             matrix3d.get m' q = matrix3d.get (example_1234 24 128) q.
Proof.
  assert (in_bounds (size3d.mk 1 2 2) (matrix3d_pos.mk 0 1 0)) as Hp
    by (repeat split).
  split; [exact Hp|].
  exact (get_after_set (example_1234 24 128) (matrix3d_pos.mk 0 1 0)
           (float_of_Z 24 128 7) example_1234_tensor Hp).
Defined.

Lemma unchecked_access_witness :
  ¬ in_bounds (size3d.mk 1 2 2) (matrix3d_pos.mk 0 0 2) ∧
  matrix3d.idx (example_1234 24 128) (matrix3d_pos.mk 0 0 2) = 2 ∧
  matrix3d.set (example_1234 24 128) (matrix3d_pos.mk 0 0 2)
    (float_of_Z 24 128 7) =
    Some (matrix3d.mk (size3d.mk 1 2 2)
            (float_of_Z 24 128 <$> [1; 2; 7; 4]%Z)) ∧
  ∃ q a, in_bounds (size3d.mk 1 2 2) q ∧ q ≠ matrix3d_pos.mk 0 0 2 ∧
         flat_index (size3d.mk 1 2 2) q = 2 ∧
         matrix3d.idx (example_1234 24 128) q = 2 ∧
         matrix3d.as_vector (example_1234 24 128) !! 2%nat = Some a ∧
         matrix3d.get (example_1234 24 128) q = Some a ∧
         matrix3d.get (example_1234 24 128) (matrix3d_pos.mk 0 0 2) = Some a ∧
         ∃ m', matrix3d.set (example_1234 24 128) (matrix3d_pos.mk 0 0 2)
                 (float_of_Z 24 128 7) = Some m' ∧
               matrix3d.get m' q = Some (float_of_Z 24 128 7) ∧
               matrix3d.get m' (matrix3d_pos.mk 0 0 2) =
                 Some (float_of_Z 24 128 7) ∧
               ∀ r, in_bounds (size3d.mk 1 2 2) r → r ≠ q →
                    matrix3d.get m' r = matrix3d.get (example_1234 24 128) r.
Proof.
  assert (¬ in_bounds (size3d.mk 1 2 2) (matrix3d_pos.mk 0 0 2)) as Hp.
  { intros (_ & _ & Hx). discriminate Hx. }
  split; [exact Hp|].
  apply (unchecked_access (example_1234 24 128) (matrix3d_pos.mk 0 0 2)
           (float_of_Z 24 128 7) example_1234_tensor Hp).
  reflexivity.
Defined.

Lemma reshape_flat_sequence_witness :
  ∃ m', reshape_matrix3d (example_56 24 128) (size3d.mk 1 1 2) = Some m' ∧
        matrix3d.size m' = size3d.mk 1 1 2 ∧
        matrix3d.as_vector m' = float_of_Z 24 128 <$> [5; 6]%Z ∧
        (∀ i, matrix3d.as_vector m' !! i =
              matrix3d.as_vector (example_56 24 128) !! i) ∧
        reshape_matrix3d m' (size3d.mk 2 1 1) = Some (example_56 24 128).
Proof.
  apply (reshape_flat_sequence (example_56 24 128) (size3d.mk 1 1 2));
    reflexivity.
Defined.

Lemma example_empty_tensor : matrix3d.tensor example_empty.
Proof. split; reflexivity. Defined.

Lemma length_invariant_witness :
  (in_bounds (matrix3d.size (example_1234 24 128)) (matrix3d_pos.mk 0 1 0) ∧
   yields_invariant
     (matrix3d.matrix3d (size3d.mk 1 1 2) (float_of_Z 24 128 <$> [5; 6]%Z)) ∧
   matrix3d.invariant (matrix3d.matrix3d_zero (size3d.mk 1 1 2)) ∧
   yields_invariant
     (matrix3d.set (example_1234 24 128) (matrix3d_pos.mk 0 1 0)
        (float_of_Z 24 128 7)) ∧
   yields_invariant (transform_matrix3d SFopp (example_1234 24 128)) ∧
   yields_invariant (reshape_matrix3d (example_1234 24 128) (size3d.mk 2 2 1)) ∧
   yields_invariant
     (add_matrix3ds 24 128 (example_1234 24 128) (example_4321 24 128)) ∧
   yields_invariant
     (sub_matrix3d 24 128 (example_1234 24 128) (example_4321 24 128)) ∧
   yields_invariant
     (multiply_matrix3d 24 128 (example_1234 24 128) (float_of_Z 24 128 2)) ∧
   yields_invariant
     (divide_matrix3d 24 128 (example_1234 24 128) (float_of_Z 24 128 2)) ∧
   yields_invariant (abs_matrix3d_values (example_1234 24 128)) ∧
   yields_invariant
     (abs_diff_matrix3ds 24 128 (example_1234 24 128) (example_4321 24 128))) ∧
  (size3d.volume (matrix3d.size example_empty) = 0 ∧
   yields_invariant (transform_matrix3d SFopp example_empty) ∧
   yields_invariant (reshape_matrix3d example_empty (size3d.mk 5 0 1)) ∧
   yields_invariant (add_matrix3ds 24 128 example_empty example_empty) ∧
   yields_invariant (sub_matrix3d 24 128 example_empty example_empty) ∧
   yields_invariant (multiply_matrix3d 24 128 example_empty (float_of_Z 24 128 2)) ∧
   yields_invariant (divide_matrix3d 24 128 example_empty (float_of_Z 24 128 2)) ∧
   yields_invariant (abs_matrix3d_values example_empty) ∧
   yields_invariant (abs_diff_matrix3ds 24 128 example_empty example_empty)).
Proof.
  assert (size3d.volume (size3d.mk 1 1 2) =
          N.of_nat (length (float_of_Z 24 128 <$> [5; 6]%Z))) as Hvalues
    by (vm_compute; reflexivity).
  split.
  - assert (in_bounds (matrix3d.size (example_1234 24 128))
              (matrix3d_pos.mk 0 1 0)) as Hpos by (repeat split).
    assert (matrix3d.size (example_1234 24 128) =
            matrix3d.size (example_4321 24 128)) as Hsize by reflexivity.
    assert (size3d.volume (size3d.mk 2 2 1) =
            size3d.volume (matrix3d.size (example_1234 24 128))) as Hvol
      by reflexivity.
    destruct (length_invariant 24 128 (size3d.mk 1 1 2) (size3d.mk 2 2 1)
                (float_of_Z 24 128 <$> [5; 6]%Z)
                (example_1234 24 128) (example_4321 24 128)
                (matrix3d_pos.mk 0 1 0)
                (float_of_Z 24 128 7) (float_of_Z 24 128 2) (float_of_Z 24 128 2)
                SFopp Hvalues example_1234_tensor example_4321_tensor
                Hsize Hvol)
      as (H1 & H2 & H3 & _ & H5 & H6 & H7 & H8 & H9 & H10 & H11 & H12).
    split; [exact Hpos|].
    repeat (split; [assumption|]). split; [exact (H3 Hpos)|].
    repeat (split; [assumption|]). assumption.
  - assert (matrix3d.size example_empty = matrix3d.size example_empty) as Hsize
      by reflexivity.
    assert (size3d.volume (size3d.mk 5 0 1) =
            size3d.volume (matrix3d.size example_empty)) as Hvol by reflexivity.
    destruct (length_invariant 24 128 (size3d.mk 1 1 2) (size3d.mk 5 0 1)
                (float_of_Z 24 128 <$> [5; 6]%Z)
                example_empty example_empty (matrix3d_pos.mk 0 0 0)
                (float_of_Z 24 128 7) (float_of_Z 24 128 2) (float_of_Z 24 128 2)
                SFopp Hvalues example_empty_tensor example_empty_tensor
                Hsize Hvol)
      as (_ & _ & _ & _ & H5 & H6 & H7 & H8 & H9 & H10 & H11 & H12).
    split; [reflexivity|].
    repeat (split; [assumption|]). assumption.
Defined.

Lemma add_commutes_sub_adds_negation_witness :
  (∃ c, add_matrix3ds 24 128 (example_1234 24 128) (example_4321 24 128) = Some c ∧
        add_matrix3ds 24 128 (example_4321 24 128) (example_1234 24 128) = Some c) ∧
  (∃ nb d, multiply_matrix3d 24 128 (example_4321 24 128) (float_minus_one 24 128)
             = Some nb ∧
           add_matrix3ds 24 128 (example_1234 24 128) nb = Some d ∧
           sub_matrix3d 24 128 (example_1234 24 128) (example_4321 24 128) = Some d).
Proof.
  apply (add_commutes_sub_adds_negation 24 128 (example_1234 24 128)
           (example_4321 24 128) example_1234_tensor example_4321_tensor).
  reflexivity.
Defined.

Lemma min_max_pos_empty_witness :
  size3d.volume (matrix3d.size example_empty) = 0 ∧
  min_max_loop 24 128 example_empty = Some (min_max_init 24 128) ∧
  matrix3d_min_max_pos 24 128 example_empty =
    Some (matrix3d_pos.mk 0 0 0, matrix3d_pos.mk 0 0 0) ∧
  ¬ in_bounds (matrix3d.size example_empty) (matrix3d_pos.mk 0 0 0) ∧
  matrix3d.get example_empty (matrix3d_pos.mk 0 0 0) = None.
Proof.
  split; [reflexivity|].
  apply (min_max_pos_empty 24 128 example_empty); reflexivity.
Defined.

(** * Further properties *)

(** ** The order of [float_t] *)

(** Case analysis on every comparison of exponents and mantissas in sight. *)
Ltac compare_cases :=
  repeat match goal with
  | H : context [Pos.compare_cont Eq ?a ?b] |- _ =>
      change (Pos.compare_cont Eq a b) with (Pos.compare a b) in H
  | |- context [Pos.compare_cont Eq ?a ?b] =>
      change (Pos.compare_cont Eq a b) with (Pos.compare a b)
  end;
  repeat match goal with
  | H : context [Z.compare ?a ?b] |- _ => destruct (Z.compare_spec a b); simpl in H
  | H : context [Pos.compare ?a ?b] |- _ => destruct (Pos.compare_spec a b); simpl in H
  | |- context [Z.compare ?a ?b] => destruct (Z.compare_spec a b); simpl
  | |- context [Pos.compare ?a ?b] => destruct (Pos.compare_spec a b); simpl
  end;
  try done; try lia.

Lemma SFltb_irrefl (x : spec_float) : SFltb x x = false.
Proof.
  unfold SFltb. destruct x as [s|s| |s m e]; simpl; try done; destruct s; try done;
    rewrite Z.compare_refl; change (Pos.compare_cont Eq m m) with (Pos.compare m m);
    by rewrite Pos.compare_refl.
Qed.

Lemma SFltb_trans (x y z : spec_float) :
  SFltb x y = true → SFltb y z = true → SFltb x z = true.
Proof.
  unfold SFltb.
  destruct x as [sx|sx| |sx mx ex], y as [sy|sy| |sy my ey], z as [sz|sz| |sz mz ez];
    simpl; try done;
    try destruct sx; try destruct sy; try destruct sz; simpl; try done;
    intros Hxy Hyz; compare_cases.
Qed.

Lemma SFltb_leb_trans (x y z : spec_float) :
  SFltb x y = true → SFleb y z = true → SFltb x z = true.
Proof.
  unfold SFltb, SFleb.
  destruct x as [sx|sx| |sx mx ex], y as [sy|sy| |sy my ey], z as [sz|sz| |sz mz ez];
    simpl; try done;
    try destruct sx; try destruct sy; try destruct sz; simpl; try done;
    intros Hxy Hyz; compare_cases.
Qed.

Lemma SFleb_ltb_trans (x y z : spec_float) :
  SFleb x y = true → SFltb y z = true → SFltb x z = true.
Proof.
  unfold SFltb, SFleb.
  destruct x as [sx|sx| |sx mx ex], y as [sy|sy| |sy my ey], z as [sz|sz| |sz mz ez];
    simpl; try done;
    try destruct sx; try destruct sy; try destruct sz; simpl; try done;
    intros Hxy Hyz; compare_cases.
Qed.

(** ** The running maximum and minimum of the scan *)

Lemma min_max_update_max (p : matrix3d_pos.t) (v : float_t) (st : min_max_state) :
  result_max (min_max_update p v st) =
    (if float_gt v (value_max st) then p else result_max st) ∧
  value_max (min_max_update p v st) =
    (if float_gt v (value_max st) then v else value_max st).
Proof.
  unfold min_max_update.
  destruct (float_gt v (value_max st)); simpl;
    destruct (float_lt v (value_min st)); done.
Qed.

Lemma min_max_update_min (p : matrix3d_pos.t) (v : float_t) (st : min_max_state) :
  result_min (min_max_update p v st) =
    (if float_lt v (value_min st) then p else result_min st) ∧
  value_min (min_max_update p v st) =
    (if float_lt v (value_min st) then v else value_min st).
Proof.
  unfold min_max_update.
  destruct (float_gt v (value_max st)); simpl;
    destruct (float_lt v (value_min st)); done.
Qed.

Lemma not_true_false (b : bool) : (b = true → False) → b = false.
Proof. by destruct b; [intros []|]. Qed.

Lemma foldl_max_scanned (l : list (matrix3d_pos.t * float_t)) (st0 : min_max_state) :
  max_scanned l st0 (foldl (λ st pv, min_max_update pv.1 pv.2 st) st0 l).
Proof.
  induction l as [|[p v] l IH] using rev_ind.
  { left. split; [|done]. intros j q w Hj. by rewrite lookup_nil in Hj. }
  unfold max_scanned in *. rewrite foldl_app. simpl.
  set (st := foldl _ st0 l) in *.
  destruct (min_max_update_max p v st) as [-> ->]. unfold float_gt in *.
  destruct IH as [(Hnone & Hres & Hval)|(i & p0 & v0 & Hi & Hres & Hval & Hgt & Hall & Hbefore)].
  - rewrite Hval, Hres. destruct (SFltb (value_max st0) v) eqn:Hv.
    + right. exists (length l), p, v. split_and!; try done.
      * by rewrite lookup_app_r, Nat.sub_diag by done.
      * intros j q w [Hj|[_ Hj]]%lookup_app_Some.
        -- apply not_true_false. intros Hw. specialize (Hnone j q w Hj).
           by rewrite (SFltb_trans _ _ _ Hv Hw) in Hnone.
        -- destruct (j - length l)%nat; simplify_eq/=. apply SFltb_irrefl.
      * intros j q w [Hj|[Hge _]]%lookup_app_Some Hlt; [|lia].
        apply not_true_false. intros Hw. specialize (Hnone j q w Hj).
        by rewrite (SFltb_leb_trans _ _ _ Hv Hw) in Hnone.
    + left. split_and!; try done.
      intros j q w [Hj|[_ Hj]]%lookup_app_Some; [by eapply Hnone|].
      destruct (j - length l)%nat; by simplify_eq/=.
  - rewrite Hval, Hres. destruct (SFltb v0 v) eqn:Hv.
    + right. exists (length l), p, v. split_and!; try done.
      * by rewrite lookup_app_r, Nat.sub_diag by done.
      * by eapply SFltb_trans.
      * intros j q w [Hj|[_ Hj]]%lookup_app_Some.
        -- apply not_true_false. intros Hw. specialize (Hall j q w Hj).
           by rewrite (SFltb_trans _ _ _ Hv Hw) in Hall.
        -- destruct (j - length l)%nat; simplify_eq/=. apply SFltb_irrefl.
      * intros j q w [Hj|[Hge _]]%lookup_app_Some Hlt; [|lia].
        apply not_true_false. intros Hw. specialize (Hall j q w Hj).
        by rewrite (SFltb_leb_trans _ _ _ Hv Hw) in Hall.
    + right. exists i, p0, v0. split_and!; try done.
      * by apply lookup_app_l_Some.
      * intros j q w [Hj|[_ Hj]]%lookup_app_Some; [by eapply Hall|].
        destruct (j - length l)%nat; by simplify_eq/=.
      * intros j q w [Hj|[Hge _]]%lookup_app_Some Hlt; [by eapply Hbefore|].
        apply lookup_lt_Some in Hi. lia.
Qed.

Lemma foldl_min_scanned (l : list (matrix3d_pos.t * float_t)) (st0 : min_max_state) :
  min_scanned l st0 (foldl (λ st pv, min_max_update pv.1 pv.2 st) st0 l).
Proof.
  induction l as [|[p v] l IH] using rev_ind.
  { left. split; [|done]. intros j q w Hj. by rewrite lookup_nil in Hj. }
  unfold min_scanned in *. rewrite foldl_app. simpl.
  set (st := foldl _ st0 l) in *.
  destruct (min_max_update_min p v st) as [-> ->]. unfold float_lt in *.
  destruct IH as [(Hnone & Hres & Hval)|(i & p0 & v0 & Hi & Hres & Hval & Hgt & Hall & Hbefore)].
  - rewrite Hval, Hres. destruct (SFltb v (value_min st0)) eqn:Hv.
    + right. exists (length l), p, v. split_and!; try done.
      * by rewrite lookup_app_r, Nat.sub_diag by done.
      * intros j q w [Hj|[_ Hj]]%lookup_app_Some.
        -- apply not_true_false. intros Hw. specialize (Hnone j q w Hj).
           by rewrite (SFltb_trans _ _ _ Hw Hv) in Hnone.
        -- destruct (j - length l)%nat; simplify_eq/=. apply SFltb_irrefl.
      * intros j q w [Hj|[Hge _]]%lookup_app_Some Hlt; [|lia].
        apply not_true_false. intros Hw. specialize (Hnone j q w Hj).
        by rewrite (SFleb_ltb_trans _ _ _ Hw Hv) in Hnone.
    + left. split_and!; try done.
      intros j q w [Hj|[_ Hj]]%lookup_app_Some; [by eapply Hnone|].
      destruct (j - length l)%nat; by simplify_eq/=.
  - rewrite Hval, Hres. destruct (SFltb v v0) eqn:Hv.
    + right. exists (length l), p, v. split_and!; try done.
      * by rewrite lookup_app_r, Nat.sub_diag by done.
      * by eapply SFltb_trans.
      * intros j q w [Hj|[_ Hj]]%lookup_app_Some.
        -- apply not_true_false. intros Hw. specialize (Hall j q w Hj).
           by rewrite (SFltb_trans _ _ _ Hw Hv) in Hall.
        -- destruct (j - length l)%nat; simplify_eq/=. apply SFltb_irrefl.
      * intros j q w [Hj|[Hge _]]%lookup_app_Some Hlt; [|lia].
        apply not_true_false. intros Hw. specialize (Hall j q w Hj).
        by rewrite (SFleb_ltb_trans _ _ _ Hw Hv) in Hall.
    + right. exists i, p0, v0. split_and!; try done.
      * by apply lookup_app_l_Some.
      * intros j q w [Hj|[_ Hj]]%lookup_app_Some; [by eapply Hall|].
        destruct (j - length l)%nat; by simplify_eq/=.
      * intros j q w [Hj|[Hge _]]%lookup_app_Some Hlt; [by eapply Hbefore|].
        apply lookup_lt_Some in Hi. lia.
Qed.

Lemma lookup_positions_flat_index (s : size3d.t) (q : matrix3d_pos.t) :
  in_bounds s q → positions s !! N.to_nat (flat_index s q) = Some q.
Proof.
  intros Hq. pose proof (flat_index_lt s q Hq) as Hlt.
  destruct (lookup_lt_is_Some_2 (positions s) (N.to_nat (flat_index s q)))
    as [q' Hq']; [rewrite length_positions; lia|].
  rewrite Hq'. f_equal. apply lookup_positions in Hq' as [Hin Hflat].
  apply (flat_index_inj s); [done..|lia].
Qed.

(** The pairs that the scan folds over: each in-bounds position with the
    element that [get] reads there, at the index of its flat offset. *)
Lemma lookup_scanned (vol : matrix3d.t) (j : nat) (q : matrix3d_pos.t) (w : float_t) :
  matrix3d.tensor vol →
  zip (positions (matrix3d.size vol)) (matrix3d.as_vector vol) !! j = Some (q, w) ↔
  in_bounds (matrix3d.size vol) q ∧
  N.to_nat (flat_index (matrix3d.size vol) q) = j ∧
  matrix3d.get vol q = Some w.
Proof.
  intros Hvol. split.
  - intros (q' & w' & [= <- <-] & [Hq Hj]%lookup_positions & Hw)%lookup_zip_with_Some.
    destruct (idx_in_bounds vol q) as [Hidx _]; [done..|].
    split_and!; [done|lia|]. unfold matrix3d.get. rewrite Hidx, Hj, Nat2N.id. done.
  - intros (Hq & <- & Hw). apply lookup_zip_with_Some.
    exists q, w. split_and!; [done| |].
    + by apply lookup_positions_flat_index.
    + destruct (idx_in_bounds vol q) as [Hidx _]; [done..|].
      unfold matrix3d.get in Hw. by rewrite Hidx in Hw.
Qed.

Lemma in_bounds_origin (s : size3d.t) :
  size3d.volume s ≠ 0 → in_bounds s (matrix3d_pos.mk 0 0 0).
Proof.
  destruct s as [d h w]. unfold size3d.volume, in_bounds. simpl. intros Hvol.
  split_and!; apply N.neq_0_lt_0; intros ->; lia.
Qed.

(** The whole of what [matrix3d_min_max_pos] returns on a tensor. *)
Lemma min_max_pos_characterised (prec emax : Z) (vol : matrix3d.t) :
  matrix3d.tensor vol →
  ∃ pmin pmax,
    matrix3d_min_max_pos prec emax vol = Some (pmin, pmax) ∧
    ((pmax = matrix3d_pos.mk 0 0 0 ∧
      ∀ q w, in_bounds (matrix3d.size vol) q → matrix3d.get vol q = Some w →
             float_gt w (numeric_limits_min prec emax) = false)
     ∨
     (first_greatest_at vol pmax ∧
      ∃ v, matrix3d.get vol pmax = Some v ∧
           float_gt v (numeric_limits_min prec emax) = true)) ∧
    ((pmin = matrix3d_pos.mk 0 0 0 ∧
      ∀ q w, in_bounds (matrix3d.size vol) q → matrix3d.get vol q = Some w →
             float_lt w (numeric_limits_max prec emax) = false)
     ∨
     (first_least_at vol pmin ∧
      ∃ v, matrix3d.get vol pmin = Some v ∧
           float_lt v (numeric_limits_max prec emax) = true)).
Proof.
  intros Hvol. unfold matrix3d_min_max_pos. rewrite min_max_loop_foldl by done.
  simpl. eexists _, _. split; [done|].
  set (l := zip _ _). set (st := foldl _ _ l). split.
  - destruct (foldl_max_scanned l (min_max_init prec emax))
      as [(Hnone & Hres & _)|(i & p & v & Hi & Hres & _ & Hgt & Hall & Hbefore)];
      fold st in Hres.
    + left. split; [done|]. intros q w Hq Hw.
      eapply (Hnone _ q w), lookup_scanned; done.
    + right. apply lookup_scanned in Hi as (Hp & Hpi & Hv); [|done].
      rewrite Hres. split; [|by eauto]. split; [done|]. exists v. split_and!; [done| |].
      * intros q w Hq Hw. eapply (Hall _ q w), lookup_scanned; done.
      * intros q w Hq Hw Hlt. eapply (Hbefore _ q w); [by eapply lookup_scanned|lia].
  - destruct (foldl_min_scanned l (min_max_init prec emax))
      as [(Hnone & Hres & _)|(i & p & v & Hi & Hres & _ & Hgt & Hall & Hbefore)];
      fold st in Hres.
    + left. split; [done|]. intros q w Hq Hw.
      eapply (Hnone _ q w), lookup_scanned; done.
    + right. apply lookup_scanned in Hi as (Hp & Hpi & Hv); [|done].
      rewrite Hres. split; [|by eauto]. split; [done|]. exists v. split_and!; [done| |].
      * intros q w Hq Hw. eapply (Hall _ q w), lookup_scanned; done.
      * intros q w Hq Hw Hlt. eapply (Hbefore _ q w); [by eapply lookup_scanned|lia].
Qed.

(** ** Further properties: access *)

Lemma get_size_values (m1 m2 : matrix3d.t) (p : matrix3d_pos.t) :
  matrix3d.size m1 = matrix3d.size m2 →
  matrix3d.get m1 p = matrix3d.as_vector m1 !! N.to_nat (matrix3d.idx m2 p).
Proof. intros Hs. unfold matrix3d.get. by rewrite (idx_size m1 m2). Qed.

(** X1. Writing twice at one position leaves the second value: the first
    write is lost, also when the position is out of range. *)
Theorem set_twice (m : matrix3d.t) (p : matrix3d_pos.t) (v1 v2 : float_t) :
  matrix3d.set m p v1 ≫= (λ m1, matrix3d.set m1 p v2) = matrix3d.set m p v2.
Proof.
  unfold matrix3d.set. case_decide as Hlt; [|done]. simpl.
  unfold matrix3d.idx, matrix3d.size. cbn [matrix3d.size_ matrix3d.values_].
  rewrite length_insert. rewrite decide_True by done.
  by rewrite list_insert_insert_eq.
Qed.

(** X2. Writes at two distinct in-bounds positions of a tensor both
    succeed and give the same tensor in either order. *)
Theorem set_commutes (m : matrix3d.t) (p q : matrix3d_pos.t) (v w : float_t) :
  matrix3d.tensor m →
  in_bounds (matrix3d.size m) p → in_bounds (matrix3d.size m) q → p ≠ q →
  ∃ m', matrix3d.set m p v ≫= (λ m1, matrix3d.set m1 q w) = Some m' ∧
        matrix3d.set m q w ≫= (λ m1, matrix3d.set m1 p v) = Some m' ∧
        matrix3d.get m' p = Some v ∧ matrix3d.get m' q = Some w.
Proof.
  intros Hm Hp Hq Hne.
  destruct (idx_in_bounds m p) as [Hip Hlp]; [done..|].
  destruct (idx_in_bounds m q) as [Hiq Hlq]; [done..|].
  assert (N.to_nat (matrix3d.idx m p) ≠ N.to_nat (matrix3d.idx m q)) as Hidx.
  { intros Heq. apply Hne, (flat_index_inj (matrix3d.size m)); [done..|lia]. }
  rewrite !set_is_Some by done. simpl.
  set (m1 := matrix3d.mk _ (<[_ := v]> _)). set (m2 := matrix3d.mk _ (<[_ := w]> _)).
  rewrite (set_is_Some m1), (set_is_Some m2);
    rewrite ?(idx_size m1 m), ?(idx_size m2 m) by done;
    unfold m1, m2, matrix3d.as_vector; cbn [matrix3d.values_];
    rewrite ?length_insert; try done.
  eexists. split; [done|]. unfold matrix3d.size. cbn [matrix3d.size_].
  split; [by rewrite list_insert_insert_ne|].
  unfold matrix3d.get, matrix3d.idx, matrix3d.size in *.
  cbn [matrix3d.size_ matrix3d.values_]. split.
  - rewrite list_lookup_insert_ne by done. by apply list_lookup_insert_eq.
  - apply list_lookup_insert_eq. by rewrite length_insert.
Qed.

(** X3. Writing back the value that [get] reads at a position changes
    nothing. *)
Theorem set_of_get (m : matrix3d.t) (p : matrix3d_pos.t) (v : float_t) :
  matrix3d.get m p = Some v → matrix3d.set m p v = Some m.
Proof.
  unfold matrix3d.get, matrix3d.set. intros Hv.
  rewrite decide_True by by eapply lookup_lt_Some.
  rewrite list_insert_id by done. by destruct m.
Qed.

(** X4. The tensor that the shape-only constructor builds for a shape whose
    volume a [std::size_t] can hold, empty or not, is a tensor of that
    shape: its flat sequence has the length of the volume and holds
    [0.0f] only, and [get] reads [0.0f] at every position within bounds. *)
Theorem matrix3d_zero_all_zero (shape : size3d.t) :
  size3d.volume shape < size_t_modulus →
  matrix3d.tensor (matrix3d.matrix3d_zero shape) ∧
  matrix3d.size (matrix3d.matrix3d_zero shape) = shape ∧
  N.of_nat (length (matrix3d.as_vector (matrix3d.matrix3d_zero shape))) =
    size3d.volume shape ∧
  (∀ x, x ∈ matrix3d.as_vector (matrix3d.matrix3d_zero shape) → x = float_zero) ∧
  (∀ p, in_bounds shape p →
        matrix3d.get (matrix3d.matrix3d_zero shape) p = Some float_zero).
Proof.
  intros Hvol.
  assert (matrix3d.tensor (matrix3d.matrix3d_zero shape)) as Ht.
  { split; [apply matrix3d_zero_invariant|].
    unfold vec_fits, matrix3d.matrix3d_zero, matrix3d.as_vector.
    cbn [matrix3d.values_]. rewrite length_replicate. lia. }
  split_and!; [done|done| | |].
  - unfold matrix3d.matrix3d_zero, matrix3d.as_vector. cbn [matrix3d.values_].
    rewrite length_replicate. lia.
  - intros x Hx. by apply elem_of_replicate_inv in Hx.
  - intros p Hp. destruct (idx_in_bounds _ p Ht Hp) as [_ Hlt].
    unfold matrix3d.get. unfold matrix3d.as_vector, matrix3d.matrix3d_zero in *.
    cbn [matrix3d.values_] in *. rewrite length_replicate in Hlt.
    by apply lookup_replicate_2.
Qed.

(** ** Further properties: reshape *)

(** X5. After a reshape to a shape of the same volume, every element is
    read at the position of the new shape that has the flat offset of its
    old position. *)
Theorem reshape_readdresses (m : matrix3d.t) (s2 : size3d.t) (p : matrix3d_pos.t) :
  matrix3d.tensor m →
  size3d.volume s2 = size3d.volume (matrix3d.size m) →
  in_bounds (matrix3d.size m) p →
  ∃ m' q, reshape_matrix3d m s2 = Some m' ∧
          matrix3d.tensor m' ∧
          in_bounds s2 q ∧
          flat_index s2 q = flat_index (matrix3d.size m) p ∧
          matrix3d.get m' q = matrix3d.get m p ∧
          ∀ q', in_bounds s2 q' →
                flat_index s2 q' = flat_index (matrix3d.size m) p → q' = q.
Proof.
  intros Hm Hvol Hp. pose proof Hm as [Hinv Hfits].
  unfold matrix3d.invariant in Hinv.
  destruct (flat_index_surj s2 (flat_index (matrix3d.size m) p)) as (q & Hq & Hqp).
  { rewrite Hvol. by apply flat_index_lt. }
  exists (matrix3d.mk s2 (matrix3d.as_vector m)), q.
  assert (matrix3d.tensor (matrix3d.mk s2 (matrix3d.as_vector m))) as Hm'.
  { split; [|done]. unfold matrix3d.invariant. cbn. congruence. }
  split_and!; try done.
  - unfold reshape_matrix3d, matrix3d.matrix3d. by rewrite decide_True by congruence.
  - destruct (idx_in_bounds _ q Hm' Hq) as [Hiq _].
    destruct (idx_in_bounds _ p Hm Hp) as [Hip _].
    unfold matrix3d.get. rewrite Hiq, Hip.
    change (matrix3d.size (matrix3d.mk s2 _)) with s2. by rewrite Hqp.
  - intros q' Hq' Hq'p. apply (flat_index_inj s2); [done..|congruence].
Qed.

(** ** Further properties: elementwise operations *)

Lemma get_fmap (f : float_t → float_t) (m : matrix3d.t) (p : matrix3d_pos.t) :
  matrix3d.get (matrix3d.mk (matrix3d.size m) (f <$> matrix3d.as_vector m)) p =
  f <$> matrix3d.get m p.
Proof.
  rewrite (get_size_values (matrix3d.mk (matrix3d.size m) _) m) by done.
  rewrite (get_size_values m m) by done.
  unfold matrix3d.as_vector at 1. cbn [matrix3d.values_].
  by rewrite list_lookup_fmap.
Qed.

Lemma get_zip_with (g : float_t → float_t → float_t) (a b : matrix3d.t)
    (p : matrix3d_pos.t) (x y : float_t) :
  matrix3d.size a = matrix3d.size b →
  matrix3d.get a p = Some x → matrix3d.get b p = Some y →
  matrix3d.get (matrix3d.mk (matrix3d.size a)
                  (zip_with g (matrix3d.as_vector a) (matrix3d.as_vector b))) p =
  Some (g x y).
Proof.
  intros Hs Ha Hb. rewrite (get_size_values b a) in Hb by done.
  rewrite (get_size_values a a) in Ha by done.
  rewrite (get_size_values (matrix3d.mk (matrix3d.size a) _) a) by done.
  unfold matrix3d.as_vector at 1. cbn [matrix3d.values_].
  by rewrite lookup_zip_with, Ha, Hb.
Qed.

(** X6. On a tensor [transform_matrix3d] runs to the end and returns a
    tensor of the same shape in which [get] reads, at every position, the
    image under [f] of what it reads in the input. *)
Theorem transform_matrix3d_elementwise (f : float_t → float_t) (m : matrix3d.t) :
  matrix3d.tensor m →
  ∃ out, transform_matrix3d f m = Some out ∧
         matrix3d.tensor out ∧
         matrix3d.size out = matrix3d.size m ∧
         matrix3d.as_vector out = f <$> matrix3d.as_vector m ∧
         ∀ p, matrix3d.get out p = f <$> matrix3d.get m p.
Proof.
  intros Hm. eexists. split; [by apply transform_matrix3d_fmap|].
  split_and!; [by apply fmap_tensor|done..|]. intros p. apply get_fmap.
Qed.

(** X7. Two transforms in a row are one transform by the composed
    function, and the transform by the identity returns its input. *)
Theorem transform_matrix3d_compose (f g : float_t → float_t) (m : matrix3d.t) :
  matrix3d.tensor m →
  transform_matrix3d f m ≫= transform_matrix3d g = transform_matrix3d (g ∘ f) m ∧
  transform_matrix3d id m = Some m.
Proof.
  intros Hm. rewrite !transform_matrix3d_fmap by done. simpl.
  rewrite transform_matrix3d_fmap by by apply fmap_tensor. split.
  - cbn. by rewrite list_fmap_compose.
  - rewrite list_fmap_id. by destruct m.
Qed.

(** X8. On two tensors of one shape [add_matrix3ds] returns a tensor of
    that shape in which [get] reads, at every position, the sum of what it
    reads in the operands. *)
Theorem add_matrix3ds_elementwise (prec emax : Z) (a b : matrix3d.t) :
  matrix3d.tensor a → matrix3d.tensor b →
  matrix3d.size a = matrix3d.size b →
  ∃ c, add_matrix3ds prec emax a b = Some c ∧
       matrix3d.tensor c ∧
       matrix3d.size c = matrix3d.size a ∧
       ∀ p x y, matrix3d.get a p = Some x → matrix3d.get b p = Some y →
                matrix3d.get c p = Some (SFadd prec emax x y).
Proof.
  intros Ha Hb Hs. eexists.
  split; [apply add_matrix3ds_zip_with; by destruct Ha, Hb|].
  split_and!; [|done|].
  - apply zip_with_tensor; [done|]. apply equal_shape_equal_length; by destruct Ha, Hb.
  - intros p x y Hx Hy. by apply (get_zip_with (float_plus prec emax)).
Qed.

(** X9. On two tensors of one shape [sub_matrix3d] returns a tensor of that
    shape in which [get] reads, at every position, the first operand's
    element plus [-1] times the second's. *)
Theorem sub_matrix3d_elementwise (prec emax : Z) (a b : matrix3d.t) :
  matrix3d.tensor a → matrix3d.tensor b →
  matrix3d.size a = matrix3d.size b →
  ∃ c, sub_matrix3d prec emax a b = Some c ∧
       matrix3d.tensor c ∧
       matrix3d.size c = matrix3d.size a ∧
       ∀ p x y, matrix3d.get a p = Some x → matrix3d.get b p = Some y →
                matrix3d.get c p =
                  Some (SFadd prec emax x
                          (SFmul prec emax (float_minus_one prec emax) y)).
Proof.
  intros Ha Hb Hs. eexists.
  split; [by apply sub_matrix3d_zip_with|].
  split_and!; [|done|].
  - apply zip_with_tensor; [done|]. rewrite length_fmap.
    apply equal_shape_equal_length; by destruct Ha, Hb.
  - intros p x y Hx Hy.
    pose proof (get_fmap (SFmul prec emax (float_minus_one prec emax)) b p) as Hnb.
    rewrite Hy in Hnb. simpl in Hnb.
    apply (get_zip_with (float_plus prec emax) a
             (matrix3d.mk (matrix3d.size b) _) p x _ Hs Hx Hnb).
Qed.

(** X10. On operands of different shapes the [assert] of [add_matrix3ds]
    fails, and with it [sub_matrix3d] and [abs_diff_matrix3ds]: no result
    is built from a truncated or padded sequence. *)
Theorem shape_mismatch_fails (prec emax : Z) (a b : matrix3d.t) :
  matrix3d.tensor b →
  matrix3d.size a ≠ matrix3d.size b →
  add_matrix3ds prec emax a b = None ∧
  sub_matrix3d prec emax a b = None ∧
  abs_diff_matrix3ds prec emax a b = None.
Proof.
  intros Hb Hne.
  assert (∀ k, add_matrix3ds prec emax a (matrix3d.mk (matrix3d.size b) k) = None)
    as Hadd.
  { intros k. unfold add_matrix3ds. by rewrite decide_False. }
  assert (sub_matrix3d prec emax a b = None) as Hsub.
  { unfold sub_matrix3d. rewrite multiply_matrix3d_fmap by done. apply Hadd. }
  split_and!; [|done|].
  - unfold add_matrix3ds. by rewrite decide_False.
  - unfold abs_diff_matrix3ds. by rewrite Hsub.
Qed.

(** X11. [multiply_matrix3d] and [divide_matrix3d] return a tensor of the
    shape of their operand; at every position the product holds [factor]
    times the element, and the quotient holds the element times the rounded
    reciprocal [1 / divisor], not the element divided by [divisor]. *)
Theorem scalar_operations_elementwise (prec emax : Z) (m : matrix3d.t)
    (factor divisor : float_t) :
  matrix3d.tensor m →
  (∃ out, multiply_matrix3d prec emax m factor = Some out ∧
          matrix3d.size out = matrix3d.size m ∧
          ∀ p, matrix3d.get out p = SFmul prec emax factor <$> matrix3d.get m p) ∧
  (∃ out, divide_matrix3d prec emax m divisor = Some out ∧
          matrix3d.size out = matrix3d.size m ∧
          ∀ p, matrix3d.get out p =
               SFmul prec emax (SFdiv prec emax (float_one prec emax) divisor)
                 <$> matrix3d.get m p).
Proof.
  intros Hm. unfold divide_matrix3d. rewrite !multiply_matrix3d_fmap by done.
  split; (eexists; split; [done|]; split; [done|]; intros p; apply get_fmap).
Qed.

Lemma SFdiv_zero (prec emax : Z) (x : float_t) (s : bool) :
  SFdiv prec emax x (S754_zero s) = S754_nan ∨
  ∃ sg, SFdiv prec emax x (S754_zero s) = S754_infinity sg.
Proof. destruct x; simpl; eauto. Qed.

Lemma SFmul_inf_or_nan (prec emax : Z) (c x : float_t) :
  (c = S754_nan ∨ ∃ sg, c = S754_infinity sg) →
  SFmul prec emax c x = S754_nan ∨ ∃ sg, SFmul prec emax c x = S754_infinity sg.
Proof. intros [->|[sg ->]]; destruct x; simpl; eauto. Qed.

(** X12. Division by zero is no error: [divide_matrix3d] by [+0] or [-0]
    runs to the end on every tensor, and every element of the result is an
    infinity or NaN. *)
Theorem divide_by_zero (prec emax : Z) (m : matrix3d.t) (s : bool) :
  matrix3d.tensor m →
  ∃ out, divide_matrix3d prec emax m (S754_zero s) = Some out ∧
         matrix3d.size out = matrix3d.size m ∧
         ∀ x, x ∈ matrix3d.as_vector out →
              x = S754_nan ∨ ∃ sg, x = S754_infinity sg.
Proof.
  intros Hm. unfold divide_matrix3d. rewrite multiply_matrix3d_fmap by done.
  eexists. split; [done|]. split; [done|].
  intros x (y & -> & _)%list_elem_of_fmap.
  apply SFmul_inf_or_nan, SFdiv_zero.
Qed.

Lemma fplus_abs_not_negative (x : float_t) :
  float_lt (fplus_abs x) float_zero = false.
Proof.
  unfold fplus_abs. destruct (float_lt x float_zero) eqn:Hx; [|done].
  destruct x as [s|s| |s m e]; try done; by destruct s.
Qed.

Lemma fplus_abs_idemp (x : float_t) : fplus_abs (fplus_abs x) = fplus_abs x.
Proof. unfold fplus_abs at 1. by rewrite fplus_abs_not_negative. Qed.

(** X13. [abs_matrix3d_values] returns a tensor of the same shape none of
    whose elements is below zero, and applying it again changes nothing. *)
Theorem abs_matrix3d_values_not_negative (m : matrix3d.t) :
  matrix3d.tensor m →
  ∃ out, abs_matrix3d_values m = Some out ∧
         matrix3d.size out = matrix3d.size m ∧
         (∀ p, matrix3d.get out p = fplus_abs <$> matrix3d.get m p) ∧
         (∀ x, x ∈ matrix3d.as_vector out → float_lt x float_zero = false) ∧
         abs_matrix3d_values out = Some out.
Proof.
  intros Hm. unfold abs_matrix3d_values. rewrite transform_matrix3d_fmap by done.
  eexists. split; [done|]. split_and!; [done| | |].
  - intros p. apply get_fmap.
  - intros x (y & -> & _)%list_elem_of_fmap. apply fplus_abs_not_negative.
  - rewrite transform_matrix3d_fmap by by apply fmap_tensor.
    cbn. rewrite <- list_fmap_compose. do 2 f_equal.
    apply list_fmap_ext. intros _ x _. apply fplus_abs_idemp.
Qed.

(** X14. On two tensors of one shape [abs_diff_matrix3ds] returns a tensor
    of that shape that holds, at every position, the absolute value of the
    first operand's element plus [-1] times the second's; none of its
    elements is below zero. *)
Theorem abs_diff_matrix3ds_elementwise (prec emax : Z) (a b : matrix3d.t) :
  matrix3d.tensor a → matrix3d.tensor b →
  matrix3d.size a = matrix3d.size b →
  ∃ c, abs_diff_matrix3ds prec emax a b = Some c ∧
       matrix3d.size c = matrix3d.size a ∧
       (∀ p x y, matrix3d.get a p = Some x → matrix3d.get b p = Some y →
                 matrix3d.get c p =
                   Some (fplus_abs
                           (SFadd prec emax x
                              (SFmul prec emax (float_minus_one prec emax) y)))) ∧
       (∀ x, x ∈ matrix3d.as_vector c → float_lt x float_zero = false).
Proof.
  intros Ha Hb Hs. unfold abs_diff_matrix3ds.
  rewrite sub_matrix3d_zip_with by done. simpl.
  unfold abs_matrix3d_values. rewrite transform_matrix3d_fmap.
  2:{ apply zip_with_tensor; [done|]. rewrite length_fmap.
      apply equal_shape_equal_length; by destruct Ha, Hb. }
  eexists. split; [done|]. split_and!; [done| |].
  - intros p x y Hx Hy.
    pose proof (get_fmap (SFmul prec emax (float_minus_one prec emax)) b p) as Hnb.
    rewrite Hy in Hnb. simpl in Hnb.
    pose proof (get_zip_with (float_plus prec emax) a
                  (matrix3d.mk (matrix3d.size b) _) p x _ Hs Hx Hnb) as Hd.
    set (d := matrix3d.mk (matrix3d.size a) _) in *.
    pose proof (get_fmap fplus_abs d p) as Hc. rewrite Hd in Hc. apply Hc.
  - intros x (y & -> & _)%list_elem_of_fmap. apply fplus_abs_not_negative.
Qed.

(** ** Further properties: the min/max scan *)

Lemma get_in_bounds (m : matrix3d.t) (p : matrix3d_pos.t) :
  matrix3d.tensor m → in_bounds (matrix3d.size m) p → is_Some (matrix3d.get m p).
Proof.
  intros Hm Hp. destruct (idx_in_bounds m p) as [_ Hlt]; [done..|].
  unfold matrix3d.get. by apply lookup_lt_is_Some_2.
Qed.

(** X15. What [matrix3d_max_pos] returns on a tensor.  When some element is
    above [std::numeric_limits<float_t>::min()], it is the position of the
    first greatest element; when none is, it is (0,0,0). *)
Theorem matrix3d_max_pos_characterised (prec emax : Z) (vol : matrix3d.t) :
  matrix3d.tensor vol →
  ∃ pmax,
    matrix3d_max_pos prec emax vol = Some pmax ∧
    ((pmax = matrix3d_pos.mk 0 0 0 ∧
      ∀ q w, in_bounds (matrix3d.size vol) q → matrix3d.get vol q = Some w →
             float_gt w (numeric_limits_min prec emax) = false)
     ∨
     (first_greatest_at vol pmax ∧
      ∃ v, matrix3d.get vol pmax = Some v ∧
           float_gt v (numeric_limits_min prec emax) = true)).
Proof.
  intros Hvol.
  destruct (min_max_pos_characterised prec emax vol Hvol)
    as (pmin & pmax & Hpos & Hmax & _).
  exists pmax. split; [|done]. unfold matrix3d_max_pos. by rewrite Hpos.
Qed.

(** X16. What the first component of [matrix3d_min_max_pos] is on a tensor.
    When some element is below [std::numeric_limits<float_t>::max()], it is
    the position of the first least element; when none is, it is
    (0,0,0). *)
Theorem min_position_characterised (prec emax : Z) (vol : matrix3d.t) :
  matrix3d.tensor vol →
  ∃ pmin,
    fst <$> matrix3d_min_max_pos prec emax vol = Some pmin ∧
    ((pmin = matrix3d_pos.mk 0 0 0 ∧
      ∀ q w, in_bounds (matrix3d.size vol) q → matrix3d.get vol q = Some w →
             float_lt w (numeric_limits_max prec emax) = false)
     ∨
     (first_least_at vol pmin ∧
      ∃ v, matrix3d.get vol pmin = Some v ∧
           float_lt v (numeric_limits_max prec emax) = true)).
Proof.
  intros Hvol.
  destruct (min_max_pos_characterised prec emax vol Hvol)
    as (pmin & pmax & Hpos & _ & Hmin).
  exists pmin. split; [|done]. by rewrite Hpos.
Qed.

(** X17. On a tensor that has an element, the two positions that
    [matrix3d_min_max_pos] returns are within bounds, so
    [matrix3d_min_max_value], [matrix3d_max_value] and [matrix3d_min_value]
    read inside the buffer and return the elements there. *)
Theorem min_max_values_defined (prec emax : Z) (vol : matrix3d.t) :
  matrix3d.tensor vol →
  size3d.volume (matrix3d.size vol) ≠ 0 →
  ∃ pmin pmax lo hi,
    matrix3d_min_max_pos prec emax vol = Some (pmin, pmax) ∧
    in_bounds (matrix3d.size vol) pmin ∧
    in_bounds (matrix3d.size vol) pmax ∧
    matrix3d.get vol pmin = Some lo ∧
    matrix3d.get vol pmax = Some hi ∧
    matrix3d_min_max_value prec emax vol = Some (lo, hi) ∧
    matrix3d_max_value prec emax vol = Some hi ∧
    matrix3d_min_value prec emax vol = Some hi.
Proof.
  intros Hvol Hne.
  destruct (min_max_pos_characterised prec emax vol Hvol)
    as (pmin & pmax & Hpos & Hmax & Hmin).
  assert (in_bounds (matrix3d.size vol) pmax) as Hpmax.
  { destruct Hmax as [[-> _]|[[? _] _]]; [by apply in_bounds_origin|done]. }
  assert (in_bounds (matrix3d.size vol) pmin) as Hpmin.
  { destruct Hmin as [[-> _]|[[? _] _]]; [by apply in_bounds_origin|done]. }
  destruct (get_in_bounds vol pmin) as [lo Hlo]; [done..|].
  destruct (get_in_bounds vol pmax) as [hi Hhi]; [done..|].
  exists pmin, pmax, lo, hi. split_and!; try done.
  - unfold matrix3d_min_max_value. rewrite Hpos. simpl. by rewrite Hlo, Hhi.
  - unfold matrix3d_max_value, matrix3d_max_pos. rewrite Hpos. done.
  - unfold matrix3d_min_value, matrix3d_min_pos. rewrite Hpos. done.
Qed.

(** X18. On a tensor without elements, [matrix3d_min_max_value],
    [matrix3d_max_value] and [matrix3d_min_value] index the empty buffer at
    offset 0: they read outside it. *)
Theorem min_max_values_empty (prec emax : Z) (vol : matrix3d.t) :
  matrix3d.invariant vol →
  size3d.volume (matrix3d.size vol) = 0 →
  matrix3d_min_max_value prec emax vol = None ∧
  matrix3d_max_value prec emax vol = None ∧
  matrix3d_min_value prec emax vol = None.
Proof.
  intros Hinv Hvol.
  assert (matrix3d_min_max_pos prec emax vol =
          Some (matrix3d_pos.mk 0 0 0, matrix3d_pos.mk 0 0 0)) as Hpos.
  { unfold matrix3d_min_max_pos.
    by rewrite min_max_loop_positions, positions_empty. }
  assert (matrix3d.get vol (matrix3d_pos.mk 0 0 0) = None) as Hget.
  { unfold matrix3d.get. apply lookup_ge_None_2.
    unfold matrix3d.invariant in Hinv.
    change (matrix3d.values_ vol) with (matrix3d.as_vector vol). lia. }
  unfold matrix3d_min_max_value, matrix3d_max_value, matrix3d_min_value,
    matrix3d_max_pos, matrix3d_min_pos.
  rewrite Hpos. simpl. by rewrite Hget.
Qed.

(** ** Exact products and sums *)

Lemma SFmul_unit_float (sg s : bool) (m : positive) (e : Z) :
  bounded 24 128 m e = true →
  SFmul 24 128 (S754_finite sg 8388608 (-23)) (S754_finite s m e) =
  S754_finite (xorb sg s) m e.
Proof.
  intros [Hcan He]%andb_prop. unfold canonical_mantissa in Hcan.
  apply Z.eqb_eq in Hcan. apply Z.leb_le in He.
  unfold SFmul. unfold binary_round_aux. unfold shr_fexp at 1.
  change (Pos.mul 8388608 m)
    with (m~0~0~0~0~0~0~0~0~0~0~0~0~0~0~0~0~0~0~0~0~0~0~0)%positive.
  set (mm := (m~0~0~0~0~0~0~0~0~0~0~0~0~0~0~0~0~0~0~0~0~0~0~0)%positive).
  assert (Zdigits2 (Zpos mm) = (Zpos (digits2_pos m) + 23)%Z) as Hd
    by (unfold mm; simpl; lia).
  rewrite Hd.
  replace (fexp 24 128 (Z.pos (digits2_pos m) + 23 + (-23 + e)) - (-23 + e))%Z
    with 23%Z by (unfold fexp, emin in *; lia).
  unfold mm. simpl shr. replace (-23 + e + 23)%Z with e by lia.
  cbn [round_nearest_even shr_m loc_of_shr_record]. unfold shr_fexp.
  simpl Zdigits2. rewrite Hcan, Z.sub_diag. simpl.
  apply Z.leb_le in He. by rewrite He.
Qed.

Lemma SFmul_unit_double (sg s : bool) (m : positive) (e : Z) :
  bounded 53 1024 m e = true →
  SFmul 53 1024 (S754_finite sg 4503599627370496 (-52)) (S754_finite s m e) =
  S754_finite (xorb sg s) m e.
Proof.
  intros [Hcan He]%andb_prop. unfold canonical_mantissa in Hcan.
  apply Z.eqb_eq in Hcan. apply Z.leb_le in He.
  unfold SFmul. unfold binary_round_aux. unfold shr_fexp at 1.
  change (Pos.mul 4503599627370496 m)
    with (m~0~0~0~0~0~0~0~0~0~0~0~0~0~0~0~0~0~0~0~0~0~0~0~0~0~0~0~0~0~0~0~0~0~0~0~0~0~0~0~0~0~0~0~0~0~0~0~0~0~0~0~0)%positive.
  set (mm := (m~0~0~0~0~0~0~0~0~0~0~0~0~0~0~0~0~0~0~0~0~0~0~0~0~0~0~0~0~0~0~0~0~0~0~0~0~0~0~0~0~0~0~0~0~0~0~0~0~0~0~0~0)%positive).
  assert (Zdigits2 (Zpos mm) = (Zpos (digits2_pos m) + 52)%Z) as Hd
    by (unfold mm; simpl; lia).
  rewrite Hd.
  replace (fexp 53 1024 (Z.pos (digits2_pos m) + 52 + (-52 + e)) - (-52 + e))%Z
    with 52%Z by (unfold fexp, emin in *; lia).
  unfold mm. simpl shr. replace (-52 + e + 52)%Z with e by lia.
  cbn [round_nearest_even shr_m loc_of_shr_record]. unfold shr_fexp.
  simpl Zdigits2. rewrite Hcan, Z.sub_diag. simpl.
  apply Z.leb_le in He. by rewrite He.
Qed.

(** Multiplying a value of the format by [1] gives the value, and by
    [-1] its opposite, without rounding. *)
Lemma SFmul_one (prec emax : Z) (x : float_t) :
  float_or_double prec emax → valid_binary prec emax x = true →
  SFmul prec emax (float_one prec emax) x = x.
Proof.
  intros [[-> ->]|[-> ->]] Hx; destruct x as [s|s| |s m e]; try done.
  - by apply SFmul_unit_float.
  - by apply SFmul_unit_double.
Qed.

Lemma SFmul_minus_one (prec emax : Z) (x : float_t) :
  float_or_double prec emax → valid_binary prec emax x = true →
  SFmul prec emax (float_minus_one prec emax) x = SFopp x.
Proof.
  intros [[-> ->]|[-> ->]] Hx; destruct x as [s|s| |s m e]; try done.
  - by apply SFmul_unit_float.
  - by apply SFmul_unit_double.
Qed.

Lemma SFadd_opp_finite (prec emax : Z) (x : float_t) :
  is_finite prec emax x = true → SFadd prec emax x (SFopp x) = S754_zero false.
Proof.
  destruct x as [s|s| |s m e]; try done; intros _; [by destruct s|].
  unfold SFopp, SFadd. rewrite Z.min_id. unfold shl_align. rewrite Z.sub_diag.
  cbn [fst].
  replace (cond_Zopp s (Z.pos m) + cond_Zopp (negb s) (Z.pos m))%Z with 0%Z
    by (destruct s; simpl; lia).
  done.
Qed.

Lemma is_finite_valid (prec emax : Z) (x : float_t) :
  is_finite prec emax x = true → valid_binary prec emax x = true.
Proof. by destruct x. Qed.

Lemma SFdiv_one_one (prec emax : Z) :
  float_or_double prec emax →
  SFdiv prec emax (float_one prec emax) (float_one prec emax) = float_one prec emax.
Proof. by intros [[-> ->]|[-> ->]]; vm_compute. Qed.

(** ** Further properties: exact arithmetic *)

Lemma fmap_id_on {A : Type} (f : A → A) (l : list A) :
  (∀ x, x ∈ l → f x = x) → f <$> l = l.
Proof.
  intros Hf. rewrite <- (list_fmap_id l) at 2. apply list_fmap_ext.
  intros i x Hx. apply Hf. by eapply list_elem_of_lookup_2.
Qed.

Lemma forallb_elem_of {A : Type} (f : A → bool) (l : list A) (x : A) :
  forallb f l = true → x ∈ l → f x = true.
Proof.
  intros Hall Hx. apply list_elem_of_In in Hx.
  by apply (proj1 (forallb_forall f l) Hall).
Qed.

(** X19. With [float_t] a [float] or a [double] and a tensor of values of
    that format, multiplying by [1] and dividing by [1] return the tensor
    as it is, and multiplying by [-1] flips the sign of every element
    without rounding. *)
Theorem multiply_by_unit (prec emax : Z) (m : matrix3d.t) :
  float_or_double prec emax →
  matrix3d.tensor m →
  forallb (valid_binary prec emax) (matrix3d.as_vector m) = true →
  multiply_matrix3d prec emax m (float_one prec emax) = Some m ∧
  divide_matrix3d prec emax m (float_one prec emax) = Some m ∧
  multiply_matrix3d prec emax m (float_minus_one prec emax) =
    Some (matrix3d.mk (matrix3d.size m) (SFopp <$> matrix3d.as_vector m)).
Proof.
  intros Hf Hm Hvalid.
  assert (multiply_matrix3d prec emax m (float_one prec emax) = Some m) as Hone.
  { rewrite multiply_matrix3d_fmap by done.
    rewrite (fmap_id_on (SFmul prec emax (float_one prec emax))); [by destruct m|].
    intros x Hx. apply SFmul_one; [done|]. by eapply forallb_elem_of. }
  split_and!; [done| |].
  - unfold divide_matrix3d. by rewrite SFdiv_one_one.
  - rewrite multiply_matrix3d_fmap by done. do 2 f_equal.
    apply list_fmap_ext. intros i x Hx. apply SFmul_minus_one; [done|].
    eapply forallb_elem_of; [done|]. by eapply list_elem_of_lookup_2.
Qed.

Lemma zip_with_fmap_diag {A B C : Type} (g : A → B → C) (f : A → B) (l : list A) :
  zip_with g l (f <$> l) = (λ x, g x (f x)) <$> l.
Proof.
  induction l as [|x l IH]; [done|]. rewrite !fmap_cons. cbn [zip_with].
  by rewrite IH.
Qed.

Lemma fmap_const_replicate {A B : Type} (f : A → B) (c : B) (l : list A) :
  (∀ x, x ∈ l → f x = c) → f <$> l = replicate (length l) c.
Proof.
  induction l as [|x l IH]; intros Hf; [done|].
  rewrite fmap_cons, Hf by left. cbn [length replicate]. f_equal.
  apply IH. intros y Hy. apply Hf. by right.
Qed.

Lemma sub_self_flat (prec emax : Z) (a : matrix3d.t) :
  matrix3d.tensor a →
  sub_matrix3d prec emax a a =
    Some (matrix3d.mk (matrix3d.size a)
            ((λ x, SFadd prec emax x
                     (SFmul prec emax (float_minus_one prec emax) x))
               <$> matrix3d.as_vector a)).
Proof.
  intros Ha. rewrite sub_matrix3d_zip_with by done. do 2 f_equal.
  apply zip_with_fmap_diag.
Qed.

(** X20. With [float_t] a [float] or a [double], the difference and the
    absolute difference of a tensor of finite values with itself are the
    zero tensor of its shape. *)
Theorem difference_with_itself_zero (prec emax : Z) (a : matrix3d.t) :
  float_or_double prec emax →
  matrix3d.tensor a →
  forallb (is_finite prec emax) (matrix3d.as_vector a) = true →
  sub_matrix3d prec emax a a = Some (matrix3d.matrix3d_zero (matrix3d.size a)) ∧
  abs_diff_matrix3ds prec emax a a =
    Some (matrix3d.matrix3d_zero (matrix3d.size a)).
Proof.
  intros Hf Ha Hfin.
  assert (sub_matrix3d prec emax a a =
          Some (matrix3d.matrix3d_zero (matrix3d.size a))) as Hsub.
  { rewrite sub_self_flat by done. unfold matrix3d.matrix3d_zero. do 2 f_equal.
    destruct Ha as [Hinv _]. unfold matrix3d.invariant in Hinv.
    rewrite Hinv, Nat2N.id. apply fmap_const_replicate. intros x Hx.
    pose proof (forallb_elem_of _ _ x Hfin Hx) as Hfx.
    rewrite SFmul_minus_one by auto using is_finite_valid.
    by apply SFadd_opp_finite. }
  split; [done|]. unfold abs_diff_matrix3ds. rewrite Hsub. simpl.
  unfold abs_matrix3d_values.
  assert (matrix3d.tensor (matrix3d.matrix3d_zero (matrix3d.size a))) as Hz.
  { destruct Ha as [Hinv Hfits]. unfold matrix3d.invariant in Hinv.
    split; [apply matrix3d_zero_invariant|].
    unfold vec_fits, matrix3d.matrix3d_zero, matrix3d.as_vector in *.
    cbn [matrix3d.values_]. rewrite length_replicate. lia. }
  rewrite transform_matrix3d_fmap by done.
  unfold matrix3d.matrix3d_zero, matrix3d.as_vector, matrix3d.size.
  cbn [matrix3d.values_ matrix3d.size_]. by rewrite fmap_replicate.
Qed.

(** X21. With [float_t] a [float] or a [double], where a tensor holds an
    infinity or NaN its difference and its absolute difference with itself
    hold NaN, not zero. *)
Theorem difference_with_itself_nan (prec emax : Z) (a : matrix3d.t)
    (p : matrix3d_pos.t) (x : float_t) :
  float_or_double prec emax →
  matrix3d.tensor a →
  matrix3d.get a p = Some x →
  (x = S754_nan ∨ ∃ s, x = S754_infinity s) →
  ∃ c d, sub_matrix3d prec emax a a = Some c ∧
         matrix3d.get c p = Some S754_nan ∧
         abs_diff_matrix3ds prec emax a a = Some d ∧
         matrix3d.get d p = Some S754_nan.
Proof.
  intros Hf Ha Hx Hinf.
  assert (SFadd prec emax x (SFmul prec emax (float_minus_one prec emax) x)
          = S754_nan) as Hnan.
  { destruct Hf as [[-> ->]|[-> ->]]; destruct Hinf as [->|[[] ->]]; done. }
  unfold abs_diff_matrix3ds. rewrite sub_self_flat by done. simpl.
  unfold abs_matrix3d_values.
  rewrite transform_matrix3d_fmap by by apply fmap_tensor.
  eexists _, _. split; [done|]. split; [|split; [done|]].
  - by rewrite get_fmap, Hx, <- Hnan.
  - set (c := matrix3d.mk (matrix3d.size a) _).
    change (matrix3d.size c) with (matrix3d.size a).
    pose proof (get_fmap fplus_abs c p) as Hd.
    change (matrix3d.size c) with (matrix3d.size a) in Hd. rewrite Hd.
    unfold c. by rewrite get_fmap, Hx; simpl; rewrite Hnan.
Qed.

(** ** Further properties: [show_matrix3d] *)

Lemma count_char_append (c : ascii) (s1 s2 : string) :
  count_char c (String.append s1 s2) = (count_char c s1 + count_char c s2)%nat.
Proof. induction s1 as [|c' s1 IH]; [done|]. simpl. rewrite IH. lia. Qed.

(** A loop each of whose bodies runs and adds [k] to a measure of the
    state runs to the end and adds [k] times the number of its rounds. *)
Lemma foldM_measure {A St : Type} (μ : St → nat) (k : nat)
    (body : A → St → option St) (l : list A) (s : St) :
  (∀ a s, a ∈ l → ∃ s', body a s = Some s' ∧ μ s' = (μ s + k)%nat) →
  ∃ s', foldM body l s = Some s' ∧ μ s' = (μ s + k * length l)%nat.
Proof.
  revert s. induction l as [|a l IH]; intros s Hbody.
  { exists s. split; [done|]. simpl. lia. }
  destruct (Hbody a s) as (s1 & Hs1 & Hμ1); [left|].
  destruct (IH s1) as (s' & Hs' & Hμ').
  { intros a' s0 Ha'. apply Hbody. by right. }
  exists s'. simpl. rewrite Hs1. simpl. split; [done|]. simpl. lia.
Qed.

Lemma for_measure {St : Type} (μ : St → nat) (k : nat) (n : N)
    (body : N → St → option St) (s : St) :
  (∀ i s, i < n → ∃ s', body i s = Some s' ∧ μ s' = (μ s + k)%nat) →
  ∃ s', for_ n body s = Some s' ∧ μ s' = (μ s + k * N.to_nat n)%nat.
Proof.
  intros Hbody. unfold for_.
  destruct (foldM_measure μ k body (range n) s) as (s' & Hs' & Hμ).
  { intros i s0 Hi%elem_of_range. by apply Hbody. }
  exists s'. split; [done|]. by rewrite length_range in Hμ.
Qed.

Lemma show_matrix3d_count (to_string : float_t → string) (c : ascii) (k : nat)
    (m : matrix3d.t) :
  matrix3d.tensor m →
  (∀ v, count_char c (to_string v) = 0%nat) →
  count_char c "," = 0%nat →
  count_char c "[" = (1 - k)%nat →
  count_char c (String.append "]" newline) = k →
  count_char c "]" = k →
  ∃ str, show_matrix3d to_string m = Some str ∧
         count_char c str =
           ((1 - k) + ((1 - k) + k * N.to_nat (size3d.height_ (matrix3d.size m)) + k)
                      * N.to_nat (size3d.depth_ (matrix3d.size m)) + k)%nat.
Proof.
  intros Hm Hts Hcomma Hopen Hrow Hclose. unfold show_matrix3d. cbv zeta.
  lazymatch goal with
  | |- context [for_ ?n ?b ?s] =>
      destruct (for_measure (count_char c)
                  ((1 - k) + k * N.to_nat (size3d.height_ (matrix3d.size m)) + k)
                  n b s) as (str & -> & Hstr)
  end.
  - intros z s Hz.
    lazymatch goal with
    | |- context [for_ ?n ?b ?s] =>
        destruct (for_measure (count_char c) k n b s) as (s1 & -> & Hs1)
    end.
    + intros y s0 Hy.
      lazymatch goal with
      | |- context [for_ ?n ?b ?s] =>
          destruct (for_measure (count_char c) 0 n b s) as (s2 & -> & Hs2)
      end.
      * intros x s3 Hx.
        destruct (get_in_bounds m (matrix3d_pos.mk z y x)) as [v Hv]; [done..|].
        unfold matrix3d.get3. rewrite Hv. cbn [mbind option_bind].
        eexists. split; [done|].
        rewrite !count_char_append, Hts, Hcomma. lia.
      * cbn [mbind option_bind]. eexists. split; [done|].
        rewrite count_char_append, Hrow. lia.
    + cbn [mbind option_bind]. eexists. split; [done|].
      rewrite count_char_append, Hrow, Hs1, count_char_append, Hopen. lia.
  - cbn [mbind option_bind]. eexists. split; [done|].
    rewrite count_char_append, Hstr, Hclose, count_char_append, Hopen.
    cbn [count_char]. lia.
Qed.

(** X22. On a tensor [show_matrix3d] runs to the end.  When [std::to_string]
    writes no bracket, the text has one opening bracket for the whole and
    one per depth slice, but one closing bracket more for every row: a row
    is closed and never opened. *)
Theorem show_matrix3d_brackets (to_string : float_t → string) (m : matrix3d.t) :
  matrix3d.tensor m →
  (∀ v, count_char "[" (to_string v) = 0%nat ∧
        count_char "]" (to_string v) = 0%nat) →
  ∃ str, show_matrix3d to_string m = Some str ∧
         count_char "[" str =
           (1 + N.to_nat (size3d.depth_ (matrix3d.size m)))%nat ∧
         count_char "]" str =
           (1 + N.to_nat (size3d.depth_ (matrix3d.size m))
              + N.to_nat (size3d.depth_ (matrix3d.size m))
                * N.to_nat (size3d.height_ (matrix3d.size m)))%nat.
Proof.
  intros Hm Hts.
  destruct (show_matrix3d_count to_string "[" 0 m) as (str & Hstr & Hopen);
    [done|apply Hts|done..|].
  destruct (show_matrix3d_count to_string "]" 1 m) as (str' & Hstr' & Hclose);
    [done|apply Hts|done..|].
  exists str. rewrite Hstr in Hstr'. injection Hstr' as <-.
  split; [done|]. split; [rewrite Hopen|rewrite Hclose]; lia.
Qed.

(** ** Further properties: the zero tensor as a summand *)

Lemma SFadd_zero_r (prec emax : Z) (x : float_t) :
  SFadd prec emax x float_zero =
    if decide (x = S754_zero true) then S754_zero false else x.
Proof. destruct x as [[]|[]| |[] m e]; done. Qed.

Lemma zip_with_replicate_same {A B C : Type} (g : A → B → C) (l : list A) (y : B) :
  zip_with g l (replicate (length l) y) = (λ x, g x y) <$> l.
Proof.
  induction l as [|x l IH]; [done|]. rewrite fmap_cons.
  cbn [length replicate zip_with]. by rewrite IH.
Qed.

(** X23. Adding the zero tensor of its shape to a tensor returns the tensor
    with every [-0] replaced by [+0] and every other element as it is; a
    tensor without [-0] is returned unchanged. *)
Theorem add_zero_tensor (prec emax : Z) (a : matrix3d.t) :
  matrix3d.tensor a →
  ∃ c, add_matrix3ds prec emax a (matrix3d.matrix3d_zero (matrix3d.size a)) = Some c ∧
       matrix3d.size c = matrix3d.size a ∧
       (∀ p x, matrix3d.get a p = Some x →
               matrix3d.get c p =
                 Some (if decide (x = S754_zero true) then S754_zero false else x)) ∧
       (forallb (λ x, bool_decide (x ≠ S754_zero true)) (matrix3d.as_vector a) = true →
        c = a).
Proof.
  intros Ha. pose proof Ha as [Hinv _].
  rewrite add_matrix3ds_zip_with; [|done|apply matrix3d_zero_invariant|done].
  unfold matrix3d.invariant in Hinv.
  unfold matrix3d.matrix3d_zero at 1, matrix3d.as_vector at 2.
  cbn [matrix3d.values_]. rewrite Hinv, Nat2N.id, zip_with_replicate_same.
  eexists. split; [done|]. split_and!; [done| |].
  - intros p x Hx. rewrite get_fmap, Hx. simpl. f_equal. apply SFadd_zero_r.
  - intros Hall. rewrite (fmap_id_on (λ x, float_plus prec emax x float_zero));
      [by destruct a|].
    intros x Hx. unfold float_plus. rewrite SFadd_zero_r.
    apply (forallb_elem_of _ _ x Hall) in Hx. apply bool_decide_eq_true in Hx.
    by rewrite decide_False.
Qed.

(** ** The further properties at concrete tensors *)

Lemma example_negative_tensor : matrix3d.tensor (example_negative 24 128).
Proof. split; reflexivity. Defined.

Lemma example_infinite_tensor : matrix3d.tensor (example_infinite 24 128).
Proof. split; reflexivity. Defined.

Lemma float_is_float_or_double : float_or_double 24 128.
Proof. left. split; reflexivity. Defined.

Lemma set_commutes_witness :
  matrix3d_pos.mk 0 0 1 ≠ matrix3d_pos.mk 0 1 0 ∧
  ∃ m', matrix3d.set (example_1234 24 128) (matrix3d_pos.mk 0 0 1)
          (float_of_Z 24 128 7) ≫=
          (λ m1, matrix3d.set m1 (matrix3d_pos.mk 0 1 0) (float_of_Z 24 128 8))
        = Some m' ∧
        matrix3d.set (example_1234 24 128) (matrix3d_pos.mk 0 1 0)
          (float_of_Z 24 128 8) ≫=
          (λ m1, matrix3d.set m1 (matrix3d_pos.mk 0 0 1) (float_of_Z 24 128 7))
        = Some m' ∧
        matrix3d.get m' (matrix3d_pos.mk 0 0 1) = Some (float_of_Z 24 128 7) ∧
        matrix3d.get m' (matrix3d_pos.mk 0 1 0) = Some (float_of_Z 24 128 8).
Proof.
  assert (matrix3d_pos.mk 0 0 1 ≠ matrix3d_pos.mk 0 1 0) as Hne by discriminate.
  split; [exact Hne|].
  apply (set_commutes (example_1234 24 128) (matrix3d_pos.mk 0 0 1)
           (matrix3d_pos.mk 0 1 0) (float_of_Z 24 128 7) (float_of_Z 24 128 8)
           example_1234_tensor); [repeat split|repeat split|exact Hne].
Defined.

Lemma set_of_get_witness :
  matrix3d.get (example_1234 24 128) (matrix3d_pos.mk 0 1 0) =
    Some (float_of_Z 24 128 3) ∧
  matrix3d.set (example_1234 24 128) (matrix3d_pos.mk 0 1 0) (float_of_Z 24 128 3) =
    Some (example_1234 24 128).
Proof.
  split; [reflexivity|].
  apply (set_of_get (example_1234 24 128) (matrix3d_pos.mk 0 1 0)
           (float_of_Z 24 128 3)).
  reflexivity.
Defined.

Lemma matrix3d_zero_all_zero_witness :
  (size3d.volume (size3d.mk 2 3 4) < size_t_modulus ∧
   matrix3d.tensor (matrix3d.matrix3d_zero (size3d.mk 2 3 4)) ∧
   matrix3d.size (matrix3d.matrix3d_zero (size3d.mk 2 3 4)) = size3d.mk 2 3 4 ∧
   N.of_nat (length (matrix3d.as_vector (matrix3d.matrix3d_zero (size3d.mk 2 3 4))))
     = 24 ∧
   (∀ x, x ∈ matrix3d.as_vector (matrix3d.matrix3d_zero (size3d.mk 2 3 4)) →
         x = float_zero) ∧
   (∀ p, in_bounds (size3d.mk 2 3 4) p →
         matrix3d.get (matrix3d.matrix3d_zero (size3d.mk 2 3 4)) p =
           Some float_zero)) ∧
  (size3d.volume (size3d.mk 0 3 3) = 0 ∧
   matrix3d.tensor (matrix3d.matrix3d_zero (size3d.mk 0 3 3)) ∧
   matrix3d.size (matrix3d.matrix3d_zero (size3d.mk 0 3 3)) = size3d.mk 0 3 3 ∧
   N.of_nat (length (matrix3d.as_vector (matrix3d.matrix3d_zero (size3d.mk 0 3 3))))
     = 0 ∧
   (∀ x, x ∈ matrix3d.as_vector (matrix3d.matrix3d_zero (size3d.mk 0 3 3)) →
         x = float_zero) ∧
   (∀ p, in_bounds (size3d.mk 0 3 3) p →
         matrix3d.get (matrix3d.matrix3d_zero (size3d.mk 0 3 3)) p =
           Some float_zero)).
Proof.
  split.
  - assert (size3d.volume (size3d.mk 2 3 4) < size_t_modulus) as Hvol
      by reflexivity.
    split; [exact Hvol|].
    exact (matrix3d_zero_all_zero (size3d.mk 2 3 4) Hvol).
  - assert (size3d.volume (size3d.mk 0 3 3) < size_t_modulus) as Hvol
      by reflexivity.
    split; [reflexivity|].
    exact (matrix3d_zero_all_zero (size3d.mk 0 3 3) Hvol).
Defined.

Lemma reshape_readdresses_witness :
  ∃ m' q, reshape_matrix3d (example_56 24 128) (size3d.mk 1 1 2) = Some m' ∧
          matrix3d.tensor m' ∧
          in_bounds (size3d.mk 1 1 2) q ∧
          flat_index (size3d.mk 1 1 2) q =
            flat_index (size3d.mk 2 1 1) (matrix3d_pos.mk 1 0 0) ∧
          matrix3d.get m' q =
            matrix3d.get (example_56 24 128) (matrix3d_pos.mk 1 0 0) ∧
          ∀ q', in_bounds (size3d.mk 1 1 2) q' →
                flat_index (size3d.mk 1 1 2) q' =
                  flat_index (size3d.mk 2 1 1) (matrix3d_pos.mk 1 0 0) →
                q' = q.
Proof.
  apply (reshape_readdresses (example_56 24 128) (size3d.mk 1 1 2)
           (matrix3d_pos.mk 1 0 0)); [split; reflexivity|reflexivity|repeat split].
Defined.

Lemma transform_matrix3d_elementwise_witness :
  ∃ out, transform_matrix3d SFopp (example_1234 24 128) = Some out ∧
         matrix3d.tensor out ∧
         matrix3d.size out = size3d.mk 1 2 2 ∧
         matrix3d.as_vector out = float_of_Z 24 128 <$> [-1; -2; -3; -4]%Z ∧
         ∀ p, matrix3d.get out p = SFopp <$> matrix3d.get (example_1234 24 128) p.
Proof.
  exact (transform_matrix3d_elementwise SFopp (example_1234 24 128)
           example_1234_tensor).
Defined.

Lemma transform_matrix3d_compose_witness :
  transform_matrix3d SFopp (example_1234 24 128) ≫= transform_matrix3d SFabs =
    transform_matrix3d (SFabs ∘ SFopp) (example_1234 24 128) ∧
  transform_matrix3d id (example_1234 24 128) = Some (example_1234 24 128).
Proof.
  exact (transform_matrix3d_compose SFopp SFabs (example_1234 24 128)
           example_1234_tensor).
Defined.

Lemma add_matrix3ds_elementwise_witness :
  ∃ c, add_matrix3ds 24 128 (example_1234 24 128) (example_4321 24 128) = Some c ∧
       matrix3d.tensor c ∧
       matrix3d.size c = size3d.mk 1 2 2 ∧
       ∀ p x y, matrix3d.get (example_1234 24 128) p = Some x →
                matrix3d.get (example_4321 24 128) p = Some y →
                matrix3d.get c p = Some (SFadd 24 128 x y).
Proof.
  apply (add_matrix3ds_elementwise 24 128 (example_1234 24 128)
           (example_4321 24 128) example_1234_tensor example_4321_tensor).
  reflexivity.
Defined.

Lemma sub_matrix3d_elementwise_witness :
  ∃ c, sub_matrix3d 24 128 (example_1234 24 128) (example_4321 24 128) = Some c ∧
       matrix3d.tensor c ∧
       matrix3d.size c = size3d.mk 1 2 2 ∧
       ∀ p x y, matrix3d.get (example_1234 24 128) p = Some x →
                matrix3d.get (example_4321 24 128) p = Some y →
                matrix3d.get c p =
                  Some (SFadd 24 128 x (SFmul 24 128 (float_minus_one 24 128) y)).
Proof.
  apply (sub_matrix3d_elementwise 24 128 (example_1234 24 128)
           (example_4321 24 128) example_1234_tensor example_4321_tensor).
  reflexivity.
Defined.

Lemma shape_mismatch_fails_witness :
  matrix3d.size (example_1234 24 128) ≠ matrix3d.size (example_negative 24 128) ∧
  add_matrix3ds 24 128 (example_1234 24 128) (example_negative 24 128) = None ∧
  sub_matrix3d 24 128 (example_1234 24 128) (example_negative 24 128) = None ∧
  abs_diff_matrix3ds 24 128 (example_1234 24 128) (example_negative 24 128) = None.
Proof.
  assert (matrix3d.size (example_1234 24 128) ≠
          matrix3d.size (example_negative 24 128)) as Hne by discriminate.
  split; [exact Hne|].
  exact (shape_mismatch_fails 24 128 (example_1234 24 128)
           (example_negative 24 128) example_negative_tensor Hne).
Defined.

Lemma scalar_operations_elementwise_witness :
  (∃ out, multiply_matrix3d 24 128 (example_1234 24 128) (float_of_Z 24 128 2)
            = Some out ∧
          matrix3d.size out = size3d.mk 1 2 2 ∧
          ∀ p, matrix3d.get out p =
               SFmul 24 128 (float_of_Z 24 128 2)
                 <$> matrix3d.get (example_1234 24 128) p) ∧
  (∃ out, divide_matrix3d 24 128 (example_1234 24 128) (float_of_Z 24 128 3)
            = Some out ∧
          matrix3d.size out = size3d.mk 1 2 2 ∧
          ∀ p, matrix3d.get out p =
               SFmul 24 128
                 (SFdiv 24 128 (float_one 24 128) (float_of_Z 24 128 3))
                 <$> matrix3d.get (example_1234 24 128) p).
Proof.
  exact (scalar_operations_elementwise 24 128 (example_1234 24 128)
           (float_of_Z 24 128 2) (float_of_Z 24 128 3) example_1234_tensor).
Defined.

Lemma divide_by_zero_witness :
  ∃ out, divide_matrix3d 24 128 (example_1234 24 128) (S754_zero false) = Some out ∧
         matrix3d.size out = size3d.mk 1 2 2 ∧
         ∀ x, x ∈ matrix3d.as_vector out →
              x = S754_nan ∨ ∃ sg, x = S754_infinity sg.
Proof.
  exact (divide_by_zero 24 128 (example_1234 24 128) false example_1234_tensor).
Defined.

Lemma abs_matrix3d_values_not_negative_witness :
  ∃ out, abs_matrix3d_values (example_negative 24 128) = Some out ∧
         matrix3d.size out = size3d.mk 1 1 2 ∧
         (∀ p, matrix3d.get out p =
               fplus_abs <$> matrix3d.get (example_negative 24 128) p) ∧
         (∀ x, x ∈ matrix3d.as_vector out → float_lt x float_zero = false) ∧
         abs_matrix3d_values out = Some out.
Proof.
  exact (abs_matrix3d_values_not_negative (example_negative 24 128)
           example_negative_tensor).
Defined.

Lemma abs_diff_matrix3ds_elementwise_witness :
  ∃ c, abs_diff_matrix3ds 24 128 (example_1234 24 128) (example_4321 24 128)
         = Some c ∧
       matrix3d.size c = size3d.mk 1 2 2 ∧
       (∀ p x y, matrix3d.get (example_1234 24 128) p = Some x →
                 matrix3d.get (example_4321 24 128) p = Some y →
                 matrix3d.get c p =
                   Some (fplus_abs
                           (SFadd 24 128 x
                              (SFmul 24 128 (float_minus_one 24 128) y)))) ∧
       (∀ x, x ∈ matrix3d.as_vector c → float_lt x float_zero = false).
Proof.
  apply (abs_diff_matrix3ds_elementwise 24 128 (example_1234 24 128)
           (example_4321 24 128) example_1234_tensor example_4321_tensor).
  reflexivity.
Defined.

Lemma matrix3d_max_pos_characterised_witness :
  ∃ pmax,
    matrix3d_max_pos 24 128 (example_1234 24 128) = Some pmax ∧
    ((pmax = matrix3d_pos.mk 0 0 0 ∧
      ∀ q w, in_bounds (size3d.mk 1 2 2) q →
             matrix3d.get (example_1234 24 128) q = Some w →
             float_gt w (numeric_limits_min 24 128) = false)
     ∨
     (first_greatest_at (example_1234 24 128) pmax ∧
      ∃ v, matrix3d.get (example_1234 24 128) pmax = Some v ∧
           float_gt v (numeric_limits_min 24 128) = true)).
Proof.
  exact (matrix3d_max_pos_characterised 24 128 (example_1234 24 128)
           example_1234_tensor).
Defined.

Lemma min_position_characterised_witness :
  ∃ pmin,
    fst <$> matrix3d_min_max_pos 24 128 (example_1234 24 128) = Some pmin ∧
    ((pmin = matrix3d_pos.mk 0 0 0 ∧
      ∀ q w, in_bounds (size3d.mk 1 2 2) q →
             matrix3d.get (example_1234 24 128) q = Some w →
             float_lt w (numeric_limits_max 24 128) = false)
     ∨
     (first_least_at (example_1234 24 128) pmin ∧
      ∃ v, matrix3d.get (example_1234 24 128) pmin = Some v ∧
           float_lt v (numeric_limits_max 24 128) = true)).
Proof.
  exact (min_position_characterised 24 128 (example_1234 24 128)
           example_1234_tensor).
Defined.

Lemma min_max_values_defined_witness :
  size3d.volume (matrix3d.size (example_negative 24 128)) ≠ 0 ∧
  ∃ pmin pmax lo hi,
    matrix3d_min_max_pos 24 128 (example_negative 24 128) = Some (pmin, pmax) ∧
    in_bounds (size3d.mk 1 1 2) pmin ∧
    in_bounds (size3d.mk 1 1 2) pmax ∧
    matrix3d.get (example_negative 24 128) pmin = Some lo ∧
    matrix3d.get (example_negative 24 128) pmax = Some hi ∧
    matrix3d_min_max_value 24 128 (example_negative 24 128) = Some (lo, hi) ∧
    matrix3d_max_value 24 128 (example_negative 24 128) = Some hi ∧
    matrix3d_min_value 24 128 (example_negative 24 128) = Some hi.
Proof.
  assert (size3d.volume (matrix3d.size (example_negative 24 128)) ≠ 0) as Hne
    by discriminate.
  split; [exact Hne|].
  exact (min_max_values_defined 24 128 (example_negative 24 128)
           example_negative_tensor Hne).
Defined.

Lemma min_max_values_empty_witness :
  matrix3d.invariant example_empty ∧
  matrix3d_min_max_value 24 128 example_empty = None ∧
  matrix3d_max_value 24 128 example_empty = None ∧
  matrix3d_min_value 24 128 example_empty = None.
Proof.
  split; [reflexivity|].
  apply (min_max_values_empty 24 128 example_empty); reflexivity.
Defined.

Lemma multiply_by_unit_witness :
  forallb (valid_binary 24 128) (matrix3d.as_vector (example_infinite 24 128)) = true ∧
  multiply_matrix3d 24 128 (example_infinite 24 128) (float_one 24 128) =
    Some (example_infinite 24 128) ∧
  divide_matrix3d 24 128 (example_infinite 24 128) (float_one 24 128) =
    Some (example_infinite 24 128) ∧
  multiply_matrix3d 24 128 (example_infinite 24 128) (float_minus_one 24 128) =
    Some (matrix3d.mk (size3d.mk 1 1 2)
            [S754_infinity true; float_of_Z 24 128 (-1)]).
Proof.
  split; [reflexivity|].
  apply (multiply_by_unit 24 128 (example_infinite 24 128)
           float_is_float_or_double example_infinite_tensor).
  reflexivity.
Defined.

Lemma difference_with_itself_zero_witness :
  forallb (is_finite 24 128) (matrix3d.as_vector (example_1234 24 128)) = true ∧
  sub_matrix3d 24 128 (example_1234 24 128) (example_1234 24 128) =
    Some (matrix3d.matrix3d_zero (size3d.mk 1 2 2)) ∧
  abs_diff_matrix3ds 24 128 (example_1234 24 128) (example_1234 24 128) =
    Some (matrix3d.matrix3d_zero (size3d.mk 1 2 2)).
Proof.
  split; [reflexivity|].
  apply (difference_with_itself_zero 24 128 (example_1234 24 128)
           float_is_float_or_double example_1234_tensor).
  reflexivity.
Defined.

Lemma difference_with_itself_nan_witness :
  matrix3d.get (example_infinite 24 128) (matrix3d_pos.mk 0 0 0) =
    Some (S754_infinity false) ∧
  ∃ c d, sub_matrix3d 24 128 (example_infinite 24 128) (example_infinite 24 128)
           = Some c ∧
         matrix3d.get c (matrix3d_pos.mk 0 0 0) = Some S754_nan ∧
         abs_diff_matrix3ds 24 128 (example_infinite 24 128)
           (example_infinite 24 128) = Some d ∧
         matrix3d.get d (matrix3d_pos.mk 0 0 0) = Some S754_nan.
Proof.
  split; [reflexivity|].
  apply (difference_with_itself_nan 24 128 (example_infinite 24 128)
           (matrix3d_pos.mk 0 0 0) (S754_infinity false)
           float_is_float_or_double example_infinite_tensor);
    [reflexivity|right; exists false; reflexivity].
Defined.

Lemma show_matrix3d_brackets_witness :
  ∃ str, show_matrix3d example_to_string (example_1234 24 128) = Some str ∧
         count_char "[" str = 2%nat ∧
         count_char "]" str = 4%nat.
Proof.
  apply (show_matrix3d_brackets example_to_string (example_1234 24 128)
           example_1234_tensor).
  intros v. split; reflexivity.
Defined.

Lemma add_zero_tensor_witness :
  ∃ c, add_matrix3ds 24 128 (example_1234 24 128)
         (matrix3d.matrix3d_zero (size3d.mk 1 2 2)) = Some c ∧
       matrix3d.size c = size3d.mk 1 2 2 ∧
       (∀ p x, matrix3d.get (example_1234 24 128) p = Some x →
               matrix3d.get c p =
                 Some (if decide (x = S754_zero true) then S754_zero false else x)) ∧
       (forallb (λ x, bool_decide (x ≠ S754_zero true))
          (matrix3d.as_vector (example_1234 24 128)) = true →
        c = example_1234 24 128).
Proof.
  exact (add_zero_tensor 24 128 (example_1234 24 128) example_1234_tensor).
Defined.
